(** * Today's Task app: the field codec and the task listing

    A shallow embedding of

    - [src/lib/encryption.ts]: [encryptData], [decryptData], [encryptObject],
      [decryptObject];
    - [src/components/TaskList.tsx]: the decryption step of [fetchTasks] and
      the optimistic update [handleTaskStatusChange];
    - [src/components/TaskItem.tsx]: [toggleTaskStatus], in both revisions of
      the component.

    JavaScript exceptions are modelled by a completion type (a value or a
    thrown error), [try]/[catch] by a handler on completions.  The cipher
    library (crypto-js) and [JSON.parse] are not part of the repository: the
    codec is stated over them as interfaces, with one class each.
    [JSON.stringify] and [Array.prototype.sort] are modelled after the
    language standard; the store's writes follow the row-level policies,
    the trigger and the cascade of [supabase-schema.sql].  Strings are
    sequences of bytes and stand for well-formed text in UTF-8.  Logging to
    the console and the components' [loading] spinners of [TaskItem] are
    left out. *)

From Stdlib Require Import String Ascii List ZArith Lia Bool.
From Stdlib Require Import Decimal DecimalString.
From Stdlib Require Import Sorting.Sorted Sorting.Permutation.
Import ListNotations.

Set Warnings "-register-all".

Local Open Scope list_scope.
Local Open Scope string_scope.

(** ** Completions: values and thrown errors *)

(** What a JavaScript [throw] can carry here. *)
Inductive JsError : Type :=
| Error (message : string)   (* new Error(message) *)
| TypeError                  (* raised by JSON.stringify *)
| SyntaxError                (* raised by JSON.parse *)
| Thrown (what : string).    (* anything else a library throws *)

Inductive Completion (A : Type) : Type :=
| Return (a : A)
| Throw (e : JsError).

Arguments Return {A} a.
Arguments Throw {A} e.

Definition bind {A B : Type} (c : Completion A) (k : A -> Completion B)
  : Completion B :=
  match c with
  | Return a => k a
  | Throw e => Throw e
  end.

Notation "x <- c ;; k" := (bind c (fun x => k))
  (at level 61, c at next level, right associativity).

(** [try { body } catch (error) { handler }] *)
Definition try_catch {A : Type} (body : Completion A)
  (handler : JsError -> Completion A) : Completion A :=
  match body with
  | Return a => Return a
  | Throw e => handler e
  end.

(** Sequential evaluation of [xs.map(f)] when [f] may throw: the first throw
    aborts the whole map.  [Promise.all(xs.map(async ...))] rejects under the
    same condition and keeps the order of [xs] otherwise. *)
Fixpoint map_throwing {A B : Type} (f : A -> Completion B) (xs : list A)
  : Completion (list B) :=
  match xs with
  | [] => Return []
  | x :: rest =>
      y <- f x ;;
      ys <- map_throwing f rest ;;
      Return (y :: ys)
  end.

(** JavaScript's [!text] for a string: true exactly for the empty string. *)
Definition falsy (text : string) : bool :=
  match text with
  | EmptyString => true
  | String _ _ => false
  end.

(** ** JavaScript values and [JSON.stringify] *)

(** The values [encryptObject] can be handed.  [JsNumber n] is the Number
    value for the integer [n], that is the double nearest to it (fractions
    and NaN are outside this model).  [JsCircular] stands for a member that
    refers back to an object enclosing it.  An object is a plain one: its
    own enumerable string-keyed data properties, in enumeration order, with
    distinct keys.  A function carries what a call of it as a [toJSON]
    method completes with, the one call [JSON.stringify] makes. *)
Inductive JsValue : Type :=
| JsUndefined
| JsNull
| JsBoolean (b : bool)
| JsNumber (n : Z)
| JsString (s : string)
| JsBigInt (n : Z)
| JsSymbol
| JsFunction (called : Completion JsValue)
| JsArray (elements : list JsValue)
| JsObject (properties : list (string * JsValue))
| JsCircular.

Definition char_quote : ascii := "034"%char.
Definition char_backslash : ascii := "092"%char.

Definition hex_digit (n : N) : ascii :=
  if (n <? 10)%N then ascii_of_N (48 + n) else ascii_of_N (87 + n).

(** One code unit of QuoteJSONString (ECMA-262, 25.5.2.3). *)
Definition quote_char (c : ascii) : string :=
  let n := N_of_ascii c in
  if (n =? 8)%N then String char_backslash "b"
  else if (n =? 9)%N then String char_backslash "t"
  else if (n =? 10)%N then String char_backslash "n"
  else if (n =? 12)%N then String char_backslash "f"
  else if (n =? 13)%N then String char_backslash "r"
  else if (n =? 34)%N then String char_backslash (String char_quote "")
  else if (n =? 92)%N then String char_backslash (String char_backslash "")
  else if (n <? 32)%N
       then String char_backslash
              (String "u" (String "0" (String "0"
                (String (hex_digit (n / 16)) (String (hex_digit (n mod 16)) "")))))
  else String c "".

Fixpoint quote_chars (s : string) : string :=
  match s with
  | EmptyString => EmptyString
  | String c rest => quote_char c ++ quote_chars rest
  end.

Definition QuoteJSONString (s : string) : string :=
  String char_quote (quote_chars s ++ String char_quote "").

(** The decimal digits of a natural number. *)
Definition digits (n : Z) : string :=
  DecimalString.NilZero.string_of_int (Z.to_int n).

(** The Number value for a natural number (ECMA-262, 6.1.6.1): the double
    nearest to it, of two equally near the one with the even significand;
    [None] is +Infinity. *)
Definition Number_value (n : Z) : option Z :=
  let e := (Z.log2 n - 52)%Z in
  if (e <=? 0)%Z then Some n
  else
    let q := Z.shiftr n e in
    let r := (n - Z.shiftl q e)%Z in
    let half := Z.shiftl 1 (e - 1) in
    let q' :=
      if ((half <? r) || ((r =? half) && Z.odd q))%Z then (q + 1)%Z else q in
    if ((971 <? e) || ((e =? 971) && (q' =? 2 ^ 53)))%Z then None
    else Some (Z.shiftl q' e).

(** Whether the natural number [v] rounds to the double [x], for [x] from
    2^53 on.  The reals that round to [x] lie between the midpoints to its
    two neighbours, the midpoints included when the significand of [x] is
    even; the neighbour below is half as far when the significand is 2^52.
    Everything is scaled by four to stay in the integers. *)
Definition rounds_to (x v : Z) : bool :=
  let e := (Z.log2 x - 52)%Z in
  let m := Z.shiftr x e in
  let up := Z.shiftl 1 (e + 1) in
  let down := if (m =? 2 ^ 52)%Z then Z.shiftl 1 e else up in
  if Z.even m
  then ((4 * x - down <=? 4 * v) && (4 * v <=? 4 * x + up))%Z
  else ((4 * x - down <? 4 * v) && (4 * v <? 4 * x + up))%Z.

(** The multiple of [p] that rounds to [x] and is closest to it, if there is
    one; of two equally close the one with the even quotient. *)
Definition closest_multiple (x p : Z) : option Z :=
  let below := (x / p * p)%Z in
  let above := (below + p)%Z in
  match rounds_to x below, rounds_to x above with
  | true, true =>
      if (x - below <? above - x)%Z then Some below
      else if (above - x <? x - below)%Z then Some above
      else if Z.even (x / p) then Some below else Some above
  | true, false => Some below
  | false, true => Some above
  | false, false => None
  end.

(** The decimal with the fewest significant digits that rounds to [x]: the
    largest power of ten with a multiple that does, and that multiple. *)
Fixpoint shortest (fuel : nat) (x p best : Z) : Z * Z :=
  match fuel with
  | O => (best, p)
  | S fuel' =>
      match closest_multiple x (10 * p) with
      | Some v => shortest fuel' x (10 * p)%Z v
      | None => (best, p)
      end
  end.

(** Number::toString (ECMA-262, 6.1.6.1.20) for a double that is a natural
    number: up to 21 digits are written out, the digits after the
    significant ones as zeros; from 22 digits on the exponent notation is
    used. *)
Definition unsigned_to_string (x : Z) : string :=
  if (x <? 2 ^ 53)%Z then digits x
  else
    let (v, p) := shortest (Z.to_nat (Z.log2 x)) x 1 x in
    let n := String.length (digits v) in
    if (n <=? 21)%nat then digits v
    else
      let exponent := "e+" ++ digits (Z.of_nat n - 1) in
      match digits (v / p) with
      | String d EmptyString => String d exponent
      | String d rest => String d ("." ++ rest ++ exponent)
      | EmptyString => EmptyString
      end.

(** Number::toString of the Number value for [n]. *)
Definition number_to_string (n : Z) : string :=
  match Number_value (Z.abs n) with
  | Some x =>
      if (n <? 0)%Z then String "-" (unsigned_to_string x)
      else unsigned_to_string x
  | None => if (n <? 0)%Z then "-Infinity" else "Infinity"
  end.

(** Whether the Number value for [n] is finite. *)
Definition is_finite (n : Z) : bool :=
  match Number_value (Z.abs n) with
  | Some _ => true
  | None => false
  end.

Fixpoint join (sep : string) (parts : list string) : string :=
  match parts with
  | [] => ""
  | [p] => p
  | p :: rest => p ++ sep ++ join sep rest
  end.

(** SerializeJSONProperty (ECMA-262, 25.5.2.2) with no replacer and no gap:
    [None] is [undefined].  [hook] tells whether the [toJSON] step is still
    to be made: an object with a [toJSON] method is replaced by what the
    method returns, which is then serialized without a second call, its
    members with their own calls. *)
Fixpoint SerializeJSONProperty (hook : bool) (v : JsValue)
  : Completion (option string) :=
  match v with
  | JsUndefined | JsSymbol | JsFunction _ => Return None
  | JsNull => Return (Some "null")
  | JsBoolean true => Return (Some "true")
  | JsBoolean false => Return (Some "false")
  | JsNumber n =>
      Return (Some (if is_finite n then number_to_string n else "null"))
  | JsString s => Return (Some (QuoteJSONString s))
  | JsBigInt _ => Throw TypeError
  | JsCircular => Throw TypeError
  | JsArray elements =>
      parts <-
        (fix serialize_elements (l : list JsValue) : Completion (list string) :=
           match l with
           | [] => Return []
           | e :: rest =>
               s <- SerializeJSONProperty true e ;;
               ss <- serialize_elements rest ;;
               Return (match s with Some t => t | None => "null" end :: ss)
           end) elements ;;
      Return (Some ("[" ++ join "," parts ++ "]"))
  | JsObject properties =>
      let SerializeJSONObject :=
        parts <-
          (fix serialize_properties (l : list (string * JsValue))
             : Completion (list string) :=
             match l with
             | [] => Return []
             | (key, e) :: rest =>
                 s <- SerializeJSONProperty true e ;;
                 ss <- serialize_properties rest ;;
                 Return (match s with
                         | Some t => (QuoteJSONString key ++ ":" ++ t) :: ss
                         | None => ss
                         end)
             end) properties ;;
        Return (Some ("{" ++ join "," parts ++ "}")) in
      if hook then
        (fix call_toJSON (l : list (string * JsValue))
           : Completion (option string) :=
           match l with
           | [] => SerializeJSONObject
           | (key, e) :: rest =>
               if String.eqb key "toJSON" then
                 match e with
                 | JsFunction (Return value) => SerializeJSONProperty false value
                 | JsFunction (Throw error) => Throw error
                 | _ => SerializeJSONObject
                 end
               else call_toJSON rest
           end) properties
      else SerializeJSONObject
  end.

(** [JSON.stringify(value)] *)
Definition JSON_stringify (value : JsValue) : Completion (option string) :=
  SerializeJSONProperty true value.

(** The parts of [SerializeJSONProperty] by name: the members of an array
    and of an object serialized in order, SerializeJSONArray and
    SerializeJSONObject. *)
Fixpoint serialize_elements (l : list JsValue) : Completion (list string) :=
  match l with
  | [] => Return []
  | e :: rest =>
      s <- SerializeJSONProperty true e ;;
      ss <- serialize_elements rest ;;
      Return (match s with Some t => t | None => "null" end :: ss)
  end.

Fixpoint serialize_properties (l : list (string * JsValue))
  : Completion (list string) :=
  match l with
  | [] => Return []
  | (key, e) :: rest =>
      s <- SerializeJSONProperty true e ;;
      ss <- serialize_properties rest ;;
      Return (match s with
              | Some t => (QuoteJSONString key ++ ":" ++ t) :: ss
              | None => ss
              end)
  end.

Definition SerializeJSONArray (elements : list JsValue)
  : Completion (option string) :=
  parts <- serialize_elements elements ;;
  Return (Some ("[" ++ join "," parts ++ "]")).

Definition SerializeJSONObject (properties : list (string * JsValue))
  : Completion (option string) :=
  parts <- serialize_properties properties ;;
  Return (Some ("{" ++ join "," parts ++ "}")).

(** The own [toJSON] method of an object, if it has one, as what calling it
    completes with. *)
Fixpoint toJSON_method (properties : list (string * JsValue))
  : option (Completion JsValue) :=
  match properties with
  | [] => None
  | (key, e) :: rest =>
      if String.eqb key "toJSON" then
        match e with
        | JsFunction called => Some called
        | _ => None
        end
      else toJSON_method rest
  end.

(** The object of the spec's object round-trip property:
    [{ a: 1, b: ["x","y"], c: null }]. *)
Definition representative_object : JsValue :=
  JsObject [("a", JsNumber 1);
            ("b", JsArray [JsString "x"; JsString "y"]);
            ("c", JsNull)].

(** ** The libraries the codec calls *)

(** The crypto-js primitive.  [Salt] is the random value the library draws on
    each call of [AES.encrypt]; it is an explicit argument here.

    - [AES_encrypt message passphrase salt] is
      [CryptoJS.AES.encrypt(message, passphrase).toString()].  Types are
      erased at run time and [encryptObject] can pass [undefined] (what
      [JSON.stringify] returns for a value with no JSON form), hence the
      optional message.
    - [AES_decrypt ciphertext passphrase] is
      [CryptoJS.AES.decrypt(ciphertext, passphrase)].  The salt is read
      from the ciphertext, so for everything [AES_encrypt] produces the
      outcome is a function of the two arguments; for a text with no salt in
      it the library draws one, and [AES_decrypt] is the outcome of the call
      at hand.
    - [Utf8_stringify wordArray] is [wordArray.toString(CryptoJS.enc.Utf8)];
      it throws on malformed UTF-8. *)
Class CryptoJS : Type := {
  WordArray : Type;
  Salt : Type;
  AES_encrypt : option string -> string -> Salt -> Completion string;
  AES_decrypt : string -> string -> Completion WordArray;
  Utf8_stringify : WordArray -> Completion string
}.

(** [JSON.parse(text)] without a reviver: a value, or [None] when the text is
    not JSON (the call then throws a SyntaxError). *)
Class JSONParser : Type := {
  JSON_parse : string -> option JsValue
}.

(** ** The field codec ([src/lib/encryption.ts]) *)

(** The two errors the codec itself throws. *)
Definition EncryptionError : JsError := Error "Failed to encrypt data".
Definition DecryptionError : JsError := Error "Failed to decrypt data".

(** [salt] is what the library draws during this call. *)
Definition encryptData {C : CryptoJS} (data : option string) (email : string)
  (salt : Salt) : Completion string :=
  try_catch
    (encrypted <- AES_encrypt data email salt ;;
     Return encrypted)
    (fun _ => Throw EncryptionError).

Definition decryptData {C : CryptoJS} (encryptedData : string) (email : string)
  : Completion string :=
  try_catch
    (decrypted <- AES_decrypt encryptedData email ;;
     text <- Utf8_stringify decrypted ;;
     if falsy text
     then Throw (Error "Decryption returned empty string")
     else Return text)
    (fun _ => Throw DecryptionError).

(** Neither object helper has a [try] of its own: what [JSON.stringify] or
    [JSON.parse] throws leaves the helper unchanged. *)
Definition encryptObject {C : CryptoJS} (obj : JsValue) (email : string)
  (salt : Salt) : Completion string :=
  jsonString <- JSON_stringify obj ;;
  encryptData jsonString email salt.

Definition decryptObject {C : CryptoJS} {J : JSONParser} (encryptedData : string)
  (email : string) : Completion JsValue :=
  decrypted <- decryptData encryptedData email ;;
  match JSON_parse decrypted with
  | Some value => Return value
  | None => Throw SyntaxError
  end.

(** ** Records of the store ([src/lib/supabase.ts]) *)

Inductive TaskStatus : Type := pending | completed.

Module Task.
Record t : Type := {
  id : string;
  user_id : string;
  title : string;
  jira_ticket_link : option string;
  encrypted_data : string;
  status : TaskStatus;
  created_at : string;
  updated_at : string;
  is_today : bool;
  completed_at : option string
}.
End Task.

Module ChecklistItem.
Record t : Type := {
  id : string;
  task_id : string;
  encrypted_data : string;
  completed : bool;
  position : Z;
  created_at : string;
  updated_at : string
}.
End ChecklistItem.

(** A row of the listing query, a task with its checklist items embedded:
    [Task & { checklist_items: ChecklistItem[] }].  The code guards against a
    missing array ([task.checklist_items || []]). *)
Record FetchedTask : Type := {
  task : Task.t;
  checklist_items : option (list ChecklistItem.t)
}.

(** [{ ...item, text }] *)
Record DecryptedChecklistItem : Type := {
  item : ChecklistItem.t;
  text : string
}.

(** [{ ...task, description, checklist }], at its declared type: the columns
    of the task, the description and the checklist.  (The object also keeps
    the fetched [checklist_items] array, which no component reads.) *)
Record DecryptedTask : Type := {
  columns : Task.t;
  description : string;
  checklist : list DecryptedChecklistItem
}.

(** ** [Array.prototype.sort] *)

(** A stable sort under a comparator that returns a number, as the standard
    requires since ES2019: [x] goes before [y] when [cmp x y <= 0] and [x]
    came first. *)
Fixpoint insert_sorted {A : Type} (cmp : A -> A -> Z) (x : A) (l : list A)
  : list A :=
  match l with
  | [] => [x]
  | y :: rest =>
      if (cmp x y <=? 0)%Z then x :: y :: rest
      else y :: insert_sorted cmp x rest
  end.

Definition Array_sort {A : Type} (cmp : A -> A -> Z) (l : list A) : list A :=
  fold_right (insert_sorted cmp) [] l.

(** [(a, b) => a.position - b.position] *)
Definition by_position (a b : ChecklistItem.t) : Z :=
  (ChecklistItem.position a - ChecklistItem.position b)%Z.

(** ** The listing ([src/components/TaskList.tsx]) *)

(** [x || []] *)
Definition or_empty {A : Type} (x : option (list A)) : list A :=
  match x with
  | Some l => l
  | None => []
  end.

Definition decryptChecklistItem {C : CryptoJS} (email : string)
  (item : ChecklistItem.t) : Completion DecryptedChecklistItem :=
  text <- decryptData (ChecklistItem.encrypted_data item) email ;;
  Return {| item := item; text := text |}.

(** The body of the [try] in the callback of [data.map].  The first revision
    wraps both maps in [Promise.all] over [async] callbacks and the second
    runs them directly; they compute the same records. *)
Definition decryptTask_try {C : CryptoJS} (email : string) (row : FetchedTask)
  : Completion DecryptedTask :=
  description <- decryptData (Task.encrypted_data (task row)) email ;;
  checklist <-
    map_throwing (decryptChecklistItem email)
      (Array_sort by_position (or_empty (checklist_items row))) ;;
  Return {| columns := task row;
            description := description;
            checklist := checklist |}.

(** The record returned by the [catch]. *)
Definition decryption_failed (row : FetchedTask) : DecryptedTask :=
  {| columns := task row;
     description := "[Decryption failed]";
     checklist := [] |}.

(** The callback of [data.map]: it never throws. *)
Definition decryptTask {C : CryptoJS} (email : string) (row : FetchedTask)
  : DecryptedTask :=
  match decryptTask_try email row with
  | Return decrypted => decrypted
  | Throw _ => decryption_failed row
  end.

Record User : Type := {
  uid : string;
  email : option string
}.

(** What [await query] resolves to. *)
Record QueryResult : Type := {
  data : option (list FetchedTask);
  error : option string
}.

(** The state of the [TaskList] component that [fetchTasks] writes. *)
Record ListState : Type := {
  tasks : list DecryptedTask;
  loading : bool
}.

(** [user?.email] when it is truthy. *)
Definition truthy_email (user : option User) : option string :=
  match user with
  | Some u =>
      match email u with
      | Some e => if falsy e then None else Some e
      | None => None
      end
  | None => None
  end.

Definition fetchTasks {C : CryptoJS} (user : option User) (response : QueryResult)
  (st : ListState) : ListState :=
  match truthy_email user with
  | None => st
  | Some e =>
      match error response with
      | Some _ => {| tasks := tasks st; loading := false |}
      | None =>
          {| tasks := map (decryptTask e) (or_empty (data response));
             loading := false |}
      end
  end.

(** ** Status toggling ([src/components/TaskItem.tsx]) *)

(** The object passed to [.update(...)], and [{ ...t, status, completed_at }]
    on an entry of the list. *)
Record StatusUpdate : Type := {
  new_status : TaskStatus;
  new_completed_at : option string
}.

Definition apply_update (u : StatusUpdate) (row : Task.t) : Task.t :=
  {| Task.id := Task.id row;
     Task.user_id := Task.user_id row;
     Task.title := Task.title row;
     Task.jira_ticket_link := Task.jira_ticket_link row;
     Task.encrypted_data := Task.encrypted_data row;
     Task.status := new_status u;
     Task.created_at := Task.created_at row;
     Task.updated_at := Task.updated_at row;
     Task.is_today := Task.is_today row;
     Task.completed_at := new_completed_at u |}.

(** *** The store's policies and trigger ([supabase-schema.sql]) *)

(** The row-level policies of the schema.  [auth_uid] is [auth.uid()], the
    user of the session, if any.  A task is the user's when its [user_id] is
    theirs; a checklist row is the user's when it refers to a task of
    theirs. *)
Definition own_task (auth_uid : option string) (t : Task.t) : bool :=
  match auth_uid with
  | Some uid => String.eqb (Task.user_id t) uid
  | None => false
  end.

Definition own_item (auth_uid : option string) (tasks : list Task.t)
  (r : ChecklistItem.t) : bool :=
  existsb (fun t =>
             String.eqb (Task.id t) (ChecklistItem.task_id r)
             && own_task auth_uid t)
          tasks.

(** [user?.id] *)
Definition user_id_of (user : option User) : option string :=
  match user with
  | Some u => Some (uid u)
  | None => None
  end.

(** A task row after an update at the store's time [store_now]: the columns
    written, and [updated_at] stamped by the schema's trigger. *)
Definition stored_update (store_now : string) (u : StatusUpdate) (row : Task.t)
  : Task.t :=
  {| Task.id := Task.id row;
     Task.user_id := Task.user_id row;
     Task.title := Task.title row;
     Task.jira_ticket_link := Task.jira_ticket_link row;
     Task.encrypted_data := Task.encrypted_data row;
     Task.status := new_status u;
     Task.created_at := Task.created_at row;
     Task.updated_at := store_now;
     Task.is_today := Task.is_today row;
     Task.completed_at := new_completed_at u |}.

(** [supabase.from('tasks').update(u).eq('id', id)] on the table, when the
    store accepts it: the rows with the id that the policy lets the user
    update; a row of somebody else is passed over without an error. *)
Definition update_eq_id (auth_uid : option string) (store_now : string)
  (u : StatusUpdate) (id : string) (table : list Task.t) : list Task.t :=
  map (fun row =>
         if String.eqb (Task.id row) id && own_task auth_uid row
         then stored_update store_now u row
         else row)
      table.

(** [task.status === 'pending' ? 'completed' : 'pending'] *)
Definition newStatus (current : TaskStatus) : TaskStatus :=
  match current with
  | pending => completed
  | completed => pending
  end.

(** [newStatus === 'completed' ? new Date().toISOString() : null]; [now] is
    the string [toISOString] returns. *)
Definition completedAt (status : TaskStatus) (now : string) : option string :=
  match status with
  | completed => Some now
  | pending => None
  end.

Definition status_update (displayed : DecryptedTask) (now : string)
  : StatusUpdate :=
  let s := newStatus (Task.status (columns displayed)) in
  {| new_status := s; new_completed_at := completedAt s now |}.

(** [handleTaskStatusChange] of the list: the optimistic local update,
    [{ ...t, status: newStatus, completed_at: completedAt }] on the entries
    with the given id. *)
Definition handleTaskStatusChange (taskId : string) (newStatus : TaskStatus)
  (completedAt : option string) (prev : list DecryptedTask)
  : list DecryptedTask :=
  map (fun t =>
         if String.eqb (Task.id (columns t)) taskId
         then {| columns :=
                   apply_update {| new_status := newStatus;
                                   new_completed_at := completedAt |}
                     (columns t);
                 description := description t;
                 checklist := checklist t |}
         else t)
      prev.

(** The store's table and the list the component shows. *)
Record World : Type := {
  table : list Task.t;
  shown : list DecryptedTask
}.

(** First revision of [toggleTaskStatus]: write, then ask the list to fetch
    again ([onUpdate]).  [now] is the browser's clock, [store_now] the
    store's, and [store_error] the [error] of the store's answer; the
    session is the signed-in user's.  The second component of the result
    tells whether [onUpdate] was called. *)
Definition toggleTaskStatus (user : option User) (displayed : DecryptedTask)
  (now store_now : string) (store_error : option string) (store : list Task.t)
  : list Task.t * bool :=
  match truthy_email user with
  | None => (store, false)
  | Some _ =>
      match store_error with
      | None =>
          (update_eq_id (user_id_of user) store_now (status_update displayed now)
             (Task.id (columns displayed)) store, true)
      | Some _ => (store, false)
      end
  end.

(** Second revision: the list is updated at once and reverted to the
    displayed task's old status and timestamp when the store refuses. *)
Definition toggleTaskStatus_optimistic (user : option User)
  (displayed : DecryptedTask) (now store_now : string)
  (store_error : option string) (w : World) : World :=
  match truthy_email user with
  | None => w
  | Some _ =>
      let id := Task.id (columns displayed) in
      let u := status_update displayed now in
      let optimistic :=
        handleTaskStatusChange id (new_status u) (new_completed_at u) (shown w)
      in
      match store_error with
      | None =>
          {| table := update_eq_id (user_id_of user) store_now u id (table w);
             shown := optimistic |}
      | Some _ =>
          {| table := table w;
             shown :=
               handleTaskStatusChange id
                 (Task.status (columns displayed))
                 (Task.completed_at (columns displayed))
                 optimistic |}
      end
  end.

(** ** Reference implementations of the libraries

    A small salted cipher and a JSON reader.  They stand in for crypto-js and
    [JSON.parse] wherever the codec is run on concrete inputs, and show that
    what the theorems below assume of the libraries can be met. *)

Module Ref.

Definition xor_ascii (a b : ascii) : ascii :=
  match a, b with
  | Ascii a0 a1 a2 a3 a4 a5 a6 a7, Ascii b0 b1 b2 b3 b4 b5 b6 b7 =>
      Ascii (xorb a0 b0) (xorb a1 b1) (xorb a2 b2) (xorb a3 b3)
            (xorb a4 b4) (xorb a5 b5) (xorb a6 b6) (xorb a7 b7)
  end.

(** The key byte derived from a passphrase and a salt. *)
Fixpoint derive_key (passphrase : string) (salt : ascii) : ascii :=
  match passphrase with
  | EmptyString => salt
  | String c rest => xor_ascii c (derive_key rest salt)
  end.

Fixpoint xor_string (key : ascii) (s : string) : string :=
  match s with
  | EmptyString => EmptyString
  | String c rest => String (xor_ascii c key) (xor_string key rest)
  end.

(** The byte put in front of the message before it is enciphered; a
    deciphered text that does not start with it is rejected. *)
Definition marker : ascii := "#"%char.

(** The salt comes first, in clear, then the enciphered marker and message. *)
Definition encrypt (message : option string) (passphrase : string)
  (salt : ascii) : Completion string :=
  let m := match message with Some s => s | None => EmptyString end in
  Return (String salt (xor_string (derive_key passphrase salt) (String marker m))).

Definition decrypt (ciphertext : string) (passphrase : string)
  : Completion string :=
  match ciphertext with
  | EmptyString => Throw (Thrown "no salt")
  | String salt body =>
      match xor_string (derive_key passphrase salt) body with
      | EmptyString => Throw (Thrown "no data")
      | String m rest =>
          if Ascii.eqb m marker then Return rest else Throw (Thrown "bad data")
      end
  end.

#[export] Instance cryptojs : CryptoJS := {|
  WordArray := string;
  Salt := ascii;
  AES_encrypt := encrypt;
  AES_decrypt := decrypt;
  Utf8_stringify := fun w => Return w
|}.

(** *** A JSON reader for integral numbers

    It reads the JSON texts whose numbers are written as integers, without
    fraction or exponent, and takes every other text for one that is not
    JSON; [JSON.parse] reads more. *)

Definition is_whitespace (c : ascii) : bool :=
  let n := N_of_ascii c in
  ((n =? 32) || (n =? 9) || (n =? 10) || (n =? 13))%N.

Fixpoint skip_whitespace (s : string) : string :=
  match s with
  | String c rest => if is_whitespace c then skip_whitespace rest else s
  | EmptyString => s
  end.

Definition digit_value (c : ascii) : option Z :=
  let n := N_of_ascii c in
  if ((48 <=? n) && (n <=? 57))%N then Some (Z.of_N n - 48)%Z else None.

Definition hex_value (c : ascii) : option N :=
  let n := N_of_ascii c in
  if ((48 <=? n) && (n <=? 57))%N then Some (n - 48)%N
  else if ((97 <=? n) && (n <=? 102))%N then Some (n - 87)%N
  else if ((65 <=? n) && (n <=? 70))%N then Some (n - 55)%N
  else None.

Fixpoint read_digits (acc : Z) (s : string) : Z * string :=
  match s with
  | String c rest =>
      match digit_value c with
      | Some d => read_digits (acc * 10 + d) rest
      | None => (acc, s)
      end
  | EmptyString => (acc, s)
  end.

(** An integer literal: no leading zero, no fraction, no exponent. *)
Definition read_unsigned (s : string) : option (Z * string) :=
  match s with
  | String c rest =>
      match digit_value c with
      | Some 0%Z =>
          match rest with
          | String c' _ =>
              match digit_value c' with
              | Some _ => None
              | None => Some (0%Z, rest)
              end
          | EmptyString => Some (0%Z, rest)
          end
      | Some d => Some (read_digits d rest)
      | None => None
      end
  | EmptyString => None
  end.

Definition read_number (s : string) : option (Z * string) :=
  match s with
  | String "-" rest =>
      match read_unsigned rest with
      | Some (n, rest') => Some ((- n)%Z, rest')
      | None => None
      end
  | _ => read_unsigned s
  end.

Definition cons_char (c : ascii) (r : option (string * string))
  : option (string * string) :=
  match r with
  | Some (s, rest) => Some (String c s, rest)
  | None => None
  end.

(** The characters of a string literal after its opening quote, up to and
    including the closing quote. *)
Fixpoint read_string (s : string) : option (string * string) :=
  match s with
  | EmptyString => None
  | String c rest =>
      if Ascii.eqb c char_quote then Some (EmptyString, rest)
      else if Ascii.eqb c char_backslash then
        match rest with
        | String "b" r => cons_char "008"%char (read_string r)
        | String "t" r => cons_char "009"%char (read_string r)
        | String "n" r => cons_char "010"%char (read_string r)
        | String "f" r => cons_char "012"%char (read_string r)
        | String "r" r => cons_char "013"%char (read_string r)
        | String "/" r => cons_char "/"%char (read_string r)
        | String "u" (String h3 (String h2 (String h1 (String h0 r)))) =>
            match hex_value h3, hex_value h2, hex_value h1, hex_value h0 with
            | Some 0%N, Some 0%N, Some a, Some b =>
                if (a <? 8)%N then cons_char (ascii_of_N (16 * a + b)) (read_string r)
                else None
            | _, _, _, _ => None
            end
        | String e r =>
            if Ascii.eqb e char_quote then cons_char char_quote (read_string r)
            else if Ascii.eqb e char_backslash
                 then cons_char char_backslash (read_string r)
            else None
        | EmptyString => None
        end
      else if (N_of_ascii c <? 32)%N then None
      else cons_char c (read_string rest)
  end.

Fixpoint expect (literal s : string) : option string :=
  match literal, s with
  | EmptyString, _ => Some s
  | String a literal', String b s' =>
      if Ascii.eqb a b then expect literal' s' else None
  | String _ _, EmptyString => None
  end.

Fixpoint read_value (fuel : nat) (s : string) : option (JsValue * string) :=
  match fuel with
  | O => None
  | S fuel' =>
      match skip_whitespace s with
      | String "n" rest =>
          match expect "ull" rest with Some r => Some (JsNull, r) | None => None end
      | String "t" rest =>
          match expect "rue" rest with
          | Some r => Some (JsBoolean true, r) | None => None end
      | String "f" rest =>
          match expect "alse" rest with
          | Some r => Some (JsBoolean false, r) | None => None end
      | String "[" rest =>
          match skip_whitespace rest with
          | String "]" r => Some (JsArray [], r)
          | _ =>
              match read_elements fuel' rest with
              | Some (vs, r) => Some (JsArray vs, r)
              | None => None
              end
          end
      | String "{" rest =>
          match skip_whitespace rest with
          | String "}" r => Some (JsObject [], r)
          | _ =>
              match read_members fuel' rest with
              | Some (ms, r) => Some (JsObject ms, r)
              | None => None
              end
          end
      | String c rest =>
          if Ascii.eqb c char_quote then
            match read_string rest with
            | Some (str, r) => Some (JsString str, r)
            | None => None
            end
          else
            match read_number (String c rest) with
            | Some (n, r) => Some (JsNumber n, r)
            | None => None
            end
      | EmptyString => None
      end
  end
with read_elements (fuel : nat) (s : string)
  : option (list JsValue * string) :=
  match fuel with
  | O => None
  | S fuel' =>
      match read_value fuel' s with
      | Some (v, r) =>
          match skip_whitespace r with
          | String "," r' =>
              match read_elements fuel' r' with
              | Some (vs, r'') => Some (v :: vs, r'')
              | None => None
              end
          | String "]" r' => Some ([v], r')
          | _ => None
          end
      | None => None
      end
  end
with read_members (fuel : nat) (s : string)
  : option (list (string * JsValue) * string) :=
  match fuel with
  | O => None
  | S fuel' =>
      match skip_whitespace s with
      | String q r0 =>
          if Ascii.eqb q char_quote then
            match read_string r0 with
            | Some (key, r1) =>
                match skip_whitespace r1 with
                | String ":" r2 =>
                    match read_value fuel' r2 with
                    | Some (v, r3) =>
                        match skip_whitespace r3 with
                        | String "," r4 =>
                            match read_members fuel' r4 with
                            | Some (ms, r5) => Some ((key, v) :: ms, r5)
                            | None => None
                            end
                        | String "}" r4 => Some ([(key, v)], r4)
                        | _ => None
                        end
                    | None => None
                    end
                | _ => None
                end
            | None => None
            end
          else None
      | EmptyString => None
      end
  end.

Definition parse (text : string) : option JsValue :=
  match read_value (S (String.length text)) text with
  | Some (v, rest) =>
      match skip_whitespace rest with
      | EmptyString => Some v
      | String _ _ => None
      end
  | None => None
  end.

#[export] Instance json : JSONParser := {| JSON_parse := parse |}.

End Ref.

(** ** What the theorems assume of crypto-js *)

(** Under passphrase [p] the library gives back what it enciphered: every
    text has a ciphertext, for every salt drawn, that deciphers under [p] to
    bytes which decode to the text. *)
Definition round_trips_under {C : CryptoJS} (p : string) : Prop :=
  forall (s : string) (k : Salt),
  exists (c : string) (w : WordArray),
    AES_encrypt (Some s) p k = Return c /\
    AES_decrypt c p = Return w /\
    Utf8_stringify w = Return s.

(** The salt is part of the ciphertext (the OpenSSL format puts it in the
    header): one ciphertext never comes from two salts. *)
Definition salt_embedded {C : CryptoJS} : Prop :=
  forall (m : option string) (p : string) (k1 k2 : Salt) (c : string),
    AES_encrypt m p k1 = Return c ->
    AES_encrypt m p k2 = Return c ->
    k1 = k2.

(** The three ways the library can fail to recover a text from [c] under
    [p]. *)
Inductive rejected {C : CryptoJS} (c p : string) : Prop :=
| decrypt_throws (e : JsError) :
    AES_decrypt c p = Throw e -> rejected c p
| decode_throws (w : WordArray) (e : JsError) :
    AES_decrypt c p = Return w -> Utf8_stringify w = Throw e -> rejected c p
| decodes_to_empty (w : WordArray) :
    AES_decrypt c p = Return w -> Utf8_stringify w = Return EmptyString ->
    rejected c p.

(** The values on which [JSON.stringify] throws: a BigInt or a circular
    reference, at the top or anywhere inside arrays and objects. *)
Fixpoint contains_bigint_or_cycle (v : JsValue) : bool :=
  match v with
  | JsBigInt _ | JsCircular => true
  | JsArray elements => existsb contains_bigint_or_cycle elements
  | JsObject properties =>
      existsb (fun kv => contains_bigint_or_cycle (snd kv)) properties
  | _ => false
  end.

(** A ciphertext that [decryptData] accepts under [email]. *)
Definition decrypts {C : CryptoJS} (email ciphertext : string) : Prop :=
  exists text, decryptData ciphertext email = Return text.

(** A fetched record all of whose ciphertexts are accepted: the description
    and every checklist entry. *)
Definition record_decrypts {C : CryptoJS} (email : string) (row : FetchedTask)
  : Prop :=
  decrypts email (Task.encrypted_data (task row)) /\
  Forall (fun it => decrypts email (ChecklistItem.encrypted_data it))
         (or_empty (checklist_items row)).

(** A ciphertext on which [decryptData] throws under [email]. *)
Definition fails_to_decrypt {C : CryptoJS} (email ciphertext : string) : Prop :=
  decryptData ciphertext email = Throw DecryptionError.

(** A fetched record with a ciphertext that fails: the description or some
    checklist entry. *)
Definition record_fails {C : CryptoJS} (email : string) (row : FetchedTask)
  : Prop :=
  fails_to_decrypt email (Task.encrypted_data (task row)) \/
  Exists (fun it => fails_to_decrypt email (ChecklistItem.encrypted_data it))
         (or_empty (checklist_items row)).

(** An object that survives the JSON round trip: [JSON.stringify] gives a
    text and [JSON.parse] reads the object back from it. *)
Definition JSON_serializable {J : JSONParser} (obj : JsValue) : Prop :=
  exists json,
    JSON_stringify obj = Return (Some json) /\ JSON_parse json = Some obj.

(** The positions of a decrypted checklist, in display order. *)
Definition positions (checklist : list DecryptedChecklistItem) : list Z :=
  map (fun d => ChecklistItem.position (item d)) checklist.

(** The order [by_position] sorts by. *)
Definition position_le (a b : ChecklistItem.t) : Prop :=
  (ChecklistItem.position a <= ChecklistItem.position b)%Z.

(** How a fetched record and the record shown for it are related: the
    columns are the fetched ones; when every ciphertext of the record is
    accepted, the description is the decrypted one and the checklist is the
    fetched entries sorted by position, each with its decrypted text; when
    one of them fails, the record is the placeholder. *)
Definition shown_for {C : CryptoJS} (email : string) (row : FetchedTask)
  (shown : DecryptedTask) : Prop :=
  columns shown = task row /\
  (record_decrypts email row ->
   decryptData (Task.encrypted_data (task row)) email
     = Return (description shown) /\
   Forall2
     (fun it d =>
        item d = it /\
        decryptData (ChecklistItem.encrypted_data it) email = Return (text d))
     (Array_sort by_position (or_empty (checklist_items row)))
     (checklist shown)) /\
  (record_fails email row ->
   description shown = "[Decryption failed]" /\ checklist shown = []).

(** *** Sample data *)

(** A text with a two-byte character (U+00E9 in UTF-8) between ASCII ones. *)
Definition sample_text : string :=
  "caf" ++ String "195"%char (String "169"%char " au lait").

(** Records for the listing. *)

Definition sample_task (id ciphertext : string) : Task.t :=
  {| Task.id := id;
     Task.user_id := "u1";
     Task.title := "Release";
     Task.jira_ticket_link := None;
     Task.encrypted_data := ciphertext;
     Task.status := pending;
     Task.created_at := "2024-01-01T00:00:00Z";
     Task.updated_at := "2024-01-01T00:00:00Z";
     Task.is_today := true;
     Task.completed_at := None |}.

Definition sample_item (id ciphertext : string) (position : Z)
  : ChecklistItem.t :=
  {| ChecklistItem.id := id;
     ChecklistItem.task_id := "t1";
     ChecklistItem.encrypted_data := ciphertext;
     ChecklistItem.completed := false;
     ChecklistItem.position := position;
     ChecklistItem.created_at := "2024-01-01T00:00:00Z";
     ChecklistItem.updated_at := "2024-01-01T00:00:00Z" |}.

(** The reference ciphertext of [text] under the sample user's address. *)
Definition sample_ciphertext (text : string) : string :=
  match
    encryptData (C := Ref.cryptojs) (Some text) "user@example.com" "s"%char
  with
  | Return c => c
  | Throw _ => EmptyString
  end.

(** Three fetched records: a readable one whose checklist comes back out of
    order, one with a corrupt description, one with a corrupt entry. *)
Definition sample_rows : list FetchedTask :=
  [ {| task := sample_task "t1" (sample_ciphertext "Write tests");
       checklist_items :=
         Some [ sample_item "c2" (sample_ciphertext "second") 1;
                sample_item "c3" (sample_ciphertext "third") 2;
                sample_item "c1" (sample_ciphertext "first") 0 ] |};
    {| task := sample_task "t2" "corrupt";
       checklist_items :=
         Some [ sample_item "c4" (sample_ciphertext "fine") 0 ] |};
    {| task := sample_task "t3" (sample_ciphertext "Deploy");
       checklist_items :=
         Some [ sample_item "c5" (sample_ciphertext "fine") 0;
                sample_item "c6" "corrupt" 1 ] |} ].

Definition sample_user : option User :=
  Some {| uid := "u1"; email := Some "user@example.com" |}.

Definition sample_response : QueryResult :=
  {| data := Some sample_rows; error := None |}.

Definition initial_state : ListState := {| tasks := []; loading := true |}.

(** The coupling of the two columns a toggle writes: [completed_at] is set
    exactly when the status is [completed]. *)
Definition coupled (row : Task.t) : Prop :=
  Task.completed_at row <> None <-> Task.status row = completed.

(** A displayed task for the sample store. *)
Definition sample_displayed : DecryptedTask :=
  {| columns := sample_task "t1" "ciphertext";
     description := "Write tests";
     checklist := [] |}.

Definition sample_world : World :=
  {| table := [sample_task "t1" "ciphertext"; sample_task "t2" "ciphertext"];
     shown := [sample_displayed] |}.

(** * The rest of the components *)

(** ** [String.prototype.trim] *)

(** The white space and line terminators of ECMA-262 (11.2, 11.3), as the
    bytes of their UTF-8 encodings: TAB, LF, VT, FF, CR, SP; U+00A0;
    U+1680; U+2000 to U+200A, U+2028, U+2029, U+202F; U+205F; U+3000;
    U+FEFF. *)
Definition ascii_whitespace (c : ascii) : bool :=
  let n := N_of_ascii c in
  (((9 <=? n) && (n <=? 13)) || (n =? 32))%N.

Definition whitespace2 (c1 c2 : ascii) : bool :=
  ((N_of_ascii c1 =? 194) && (N_of_ascii c2 =? 160))%N.

Definition whitespace3 (c1 c2 c3 : ascii) : bool :=
  let n1 := N_of_ascii c1 in
  let n2 := N_of_ascii c2 in
  let n3 := N_of_ascii c3 in
  (((n1 =? 225) && (n2 =? 154) && (n3 =? 128))
   || ((n1 =? 226) && (n2 =? 128)
       && (((128 <=? n3) && (n3 <=? 138)) || (n3 =? 168) || (n3 =? 169)
           || (n3 =? 175)))
   || ((n1 =? 226) && (n2 =? 129) && (n3 =? 159))
   || ((n1 =? 227) && (n2 =? 128) && (n3 =? 128))
   || ((n1 =? 239) && (n2 =? 187) && (n3 =? 191)))%N.

Fixpoint trimStart (s : string) : string :=
  match s with
  | EmptyString => EmptyString
  | String c1 r1 =>
      if ascii_whitespace c1 then trimStart r1
      else
        match r1 with
        | EmptyString => s
        | String c2 r2 =>
            if whitespace2 c1 c2 then trimStart r2
            else
              match r2 with
              | EmptyString => s
              | String c3 r3 =>
                  if whitespace3 c1 c2 c3 then trimStart r3 else s
              end
        end
  end.

(** What is left of [s] once the white space at its end is dropped: a suffix
    made of white space only goes, everything before it stays. *)
Fixpoint trimEnd (s : string) : string :=
  match s with
  | EmptyString => EmptyString
  | String c rest =>
      if falsy (trimStart s) then EmptyString else String c (trimEnd rest)
  end.

Definition trim (s : string) : string := trimEnd (trimStart s).

(** ** The store ([supabase-schema.sql]) *)

(** The two tables. *)
Record Database : Type := {
  db_tasks : list Task.t;
  db_items : list ChecklistItem.t
}.

(** [err instanceof Error ? err.message : fallback].  The engine's own errors
    are instances of [Error]; [native_message] is the text the engine gives
    them. *)
Definition message_or (native_message : JsError -> string) (fallback : string)
  (err : JsError) : string :=
  match err with
  | Error message => message
  | Thrown _ => fallback
  | TypeError | SyntaxError => native_message err
  end.

(** [xs.map((x, index) => f(index, x))] when [f] may throw. *)
Fixpoint map_throwing_from {A B : Type} (f : nat -> A -> Completion B)
  (index : nat) (xs : list A) : Completion (list B) :=
  match xs with
  | [] => Return []
  | x :: rest =>
      y <- f index x ;;
      ys <- map_throwing_from f (S index) rest ;;
      Return (y :: ys)
  end.

(** ** The form ([src/components/TaskForm.tsx]) *)

Module TaskForm.

(** The component's state. *)
Record State : Type := {
  title : string;
  description : string;
  jiraLink : string;
  checklistItems : list string;
  isToday : bool;
  loading : bool;
  error : string
}.

(** The state of a fresh form, and the one [handleSubmit] resets to. *)
Definition initial : State :=
  {| title := ""; description := ""; jiraLink := "";
     checklistItems := [""]; isToday := true; loading := false; error := "" |}.

(** [[...checklistItems, '']] *)
Definition handleAddChecklistItem (items : list string) : list string :=
  (items ++ [""])%list.

Fixpoint remove_at {A : Type} (index : nat) (l : list A) : list A :=
  match l, index with
  | [], _ => []
  | _ :: rest, O => rest
  | x :: rest, S i => x :: remove_at i rest
  end.

(** [checklistItems.filter((_, i) => i !== index)] *)
Definition handleRemoveChecklistItem (index : nat) (items : list string)
  : list string :=
  remove_at index items.

Fixpoint replace_at {A : Type} (index : nat) (value : A) (l : list A)
  : option (list A) :=
  match l, index with
  | [], O => Some [value]
  | [], S _ => None
  | _ :: rest, O => Some (value :: rest)
  | x :: rest, S i =>
      match replace_at i value rest with
      | Some rest' => Some (x :: rest')
      | None => None
      end
  end.

(** [newItems = [...checklistItems]; newItems[index] = value].  An index up
    to the length is written (at the length the array grows by one); past it
    JavaScript leaves holes in the array, which a list of strings does not
    have: [None]. *)
Definition handleChecklistItemChange (index : nat) (value : string)
  (items : list string) : option (list string) :=
  replace_at index value items.

(** What the surroundings of one [handleSubmit] decide: the salts the cipher
    draws (the first for the description, the next ones for the checklist
    items in order), the id and time the store gives the new task, the ids
    it gives the checklist rows, the [error] of its two answers, and the
    engine's text for its own errors. *)
Record Environment {C : CryptoJS} : Type := {
  salt_for : nat -> Salt;
  created_id : string;
  created_now : string;
  item_id_for : nat -> string;
  task_error : option JsError;
  checklist_error : option JsError;
  native_message : JsError -> string
}.

(** The [catch] and [finally] of [handleSubmit] after [setLoading(true)] and
    [setError('')]. *)
Definition failed {C : CryptoJS} (env : Environment) (err : JsError)
  (st : State) : State :=
  {| title := title st; description := description st;
     jiraLink := jiraLink st; checklistItems := checklistItems st;
     isToday := isToday st; loading := false;
     error := message_or (native_message env) "Failed to create task" err |}.

(** [setError(message); return] *)
Definition rejected_with (message : string) (st : State) : State :=
  {| title := title st; description := description st;
     jiraLink := jiraLink st; checklistItems := checklistItems st;
     isToday := isToday st; loading := loading st; error := message |}.

(** The row the store makes of the inserted task: the columns given, and the
    schema's defaults for the rest. *)
Definition inserted_task {C : CryptoJS} (env : Environment) (u : User)
  (st : State) (encryptedDescription : string) : Task.t :=
  {| Task.id := created_id env;
     Task.user_id := uid u;
     Task.title := trim (title st);
     Task.jira_ticket_link :=
       if falsy (trim (jiraLink st)) then None else Some (trim (jiraLink st));
     Task.encrypted_data := encryptedDescription;
     Task.status := pending;
     Task.created_at := created_now env;
     Task.updated_at := created_now env;
     Task.is_today := isToday st;
     Task.completed_at := None |}.

(** [checklistItems.filter(item => item.trim() !== '')] *)
Definition validItems (st : State) : list string :=
  filter (fun item => negb (falsy (trim item))) (checklistItems st).

(** One element of [checklistData], as the store keeps it. *)
Definition checklist_row {C : CryptoJS} (env : Environment) (userEmail : string)
  (index : nat) (item : string) : Completion ChecklistItem.t :=
  encrypted <- encryptData (Some item) userEmail (salt_for env (S index)) ;;
  Return {| ChecklistItem.id := item_id_for env index;
            ChecklistItem.task_id := created_id env;
            ChecklistItem.encrypted_data := encrypted;
            ChecklistItem.completed := false;
            ChecklistItem.position := Z.of_nat index;
            ChecklistItem.created_at := created_now env;
            ChecklistItem.updated_at := created_now env |}.

(** [handleSubmit]: the new state of the form, the store after the call, and
    whether [onSuccess] was called.  A throw leaves the store as the writes
    before it made it. *)
Definition handleSubmit {C : CryptoJS} (env : Environment) (user : option User)
  (st : State) (db : Database) : State * Database * bool :=
  match user, truthy_email user with
  | Some u, Some userEmail =>
      if falsy (trim (title st)) then
        (rejected_with "Title is required" st, db, false)
      else
        match encryptData (Some (description st)) userEmail (salt_for env 0) with
        | Throw err => (failed env err st, db, false)
        | Return encryptedDescription =>
            match task_error env with
            | Some taskError => (failed env taskError st, db, false)
            | None =>
                let taskData := inserted_task env u st encryptedDescription in
                let db1 :=
                  {| db_tasks := (db_tasks db ++ [taskData])%list;
                     db_items := db_items db |} in
                match validItems st with
                | [] => (initial, db1, true)
                | _ :: _ =>
                    match
                      map_throwing_from (checklist_row env userEmail) 0
                        (validItems st)
                    with
                    | Throw err => (failed env err st, db1, false)
                    | Return checklistData =>
                        match checklist_error env with
                        | Some checklistError =>
                            (failed env checklistError st, db1, false)
                        | None =>
                            (initial,
                             {| db_tasks := db_tasks db1;
                                db_items :=
                                  (db_items db1 ++ checklistData)%list |},
                             true)
                        end
                    end
                end
            end
        end
  | _, _ => (rejected_with "User not authenticated" st, db, false)
  end.

End TaskForm.

(** ** Checklist toggling and deletion ([src/components/TaskItem.tsx]) *)

(** [{ ...ci, completed }] *)
Definition set_completed (completed : bool) (row : ChecklistItem.t)
  : ChecklistItem.t :=
  {| ChecklistItem.id := ChecklistItem.id row;
     ChecklistItem.task_id := ChecklistItem.task_id row;
     ChecklistItem.encrypted_data := ChecklistItem.encrypted_data row;
     ChecklistItem.completed := completed;
     ChecklistItem.position := ChecklistItem.position row;
     ChecklistItem.created_at := ChecklistItem.created_at row;
     ChecklistItem.updated_at := ChecklistItem.updated_at row |}.

(** A checklist row after an update of [completed] at time [now]: the
    schema's trigger stamps [updated_at]. *)
Definition stored_completed (now : string) (completed : bool)
  (row : ChecklistItem.t) : ChecklistItem.t :=
  {| ChecklistItem.id := ChecklistItem.id row;
     ChecklistItem.task_id := ChecklistItem.task_id row;
     ChecklistItem.encrypted_data := ChecklistItem.encrypted_data row;
     ChecklistItem.completed := completed;
     ChecklistItem.position := ChecklistItem.position row;
     ChecklistItem.created_at := ChecklistItem.created_at row;
     ChecklistItem.updated_at := now |}.

(** [supabase.from('checklist_items').update({ completed }).eq('id', itemId)]
    when the store accepts it: the rows with the id that the policy lets the
    user update; a row of somebody else is passed over without an error. *)
Definition update_completed_eq_id (auth_uid : option string) (now : string)
  (completed : bool) (itemId : string) (db : Database) : Database :=
  {| db_tasks := db_tasks db;
     db_items :=
       map (fun row =>
              if String.eqb (ChecklistItem.id row) itemId
                 && own_item auth_uid (db_tasks db) row
              then stored_completed now completed row
              else row)
           (db_items db) |}.

(** [handleChecklistItemChange] of the list
    ([src/components/TaskList.tsx], second revision). *)
Definition handleChecklistItemChange (taskId itemId : string) (completed : bool)
  (prev : list DecryptedTask) : list DecryptedTask :=
  map (fun t =>
         if String.eqb (Task.id (columns t)) taskId
         then {| columns := columns t;
                 description := description t;
                 checklist :=
                   map (fun ci =>
                          if String.eqb (ChecklistItem.id (item ci)) itemId
                          then {| item := set_completed completed (item ci);
                                  text := text ci |}
                          else ci)
                       (checklist t) |}
         else t)
      prev.

(** First revision of [toggleChecklistItem]: write, then [onUpdate].
    [store_now] is the store's clock and [store_error] the [error] of its
    answer; the session is the signed-in user's.  The second component tells
    whether [onUpdate] was called. *)
Definition toggleChecklistItem (user : option User) (itemId : string)
  (currentCompleted : bool) (store_now : string) (store_error : option string)
  (db : Database) : Database * bool :=
  match truthy_email user with
  | None => (db, false)
  | Some _ =>
      match store_error with
      | None =>
          (update_completed_eq_id (user_id_of user) store_now
             (negb currentCompleted) itemId db, true)
      | Some _ => (db, false)
      end
  end.

(** The store and the list the [TaskList] component shows. *)
Record App : Type := {
  app_db : Database;
  app_shown : list DecryptedTask
}.

(** Second revision: the list is updated at once and set back to
    [currentCompleted] when the store refuses. *)
Definition toggleChecklistItem_optimistic (user : option User)
  (displayed : DecryptedTask) (itemId : string) (currentCompleted : bool)
  (store_now : string) (store_error : option string) (app : App) : App :=
  match truthy_email user with
  | None => app
  | Some _ =>
      let newCompleted := negb currentCompleted in
      let optimistic :=
        handleChecklistItemChange (Task.id (columns displayed)) itemId
          newCompleted (app_shown app) in
      match store_error with
      | None =>
          {| app_db :=
               update_completed_eq_id (user_id_of user) store_now newCompleted
                 itemId (app_db app);
             app_shown := optimistic |}
      | Some _ =>
          {| app_db := app_db app;
             app_shown :=
               handleChecklistItemChange (Task.id (columns displayed)) itemId
                 currentCompleted optimistic |}
      end
  end.

(** The tasks a [delete().eq('id', id)] removes: those with the id that the
    policy lets the user delete. *)
Definition deleted_by (auth_uid : option string) (id : string) (t : Task.t)
  : bool :=
  String.eqb (Task.id t) id && own_task auth_uid t.

(** [supabase.from('tasks').delete().eq('id', id)] when the store accepts
    it: the tasks go, and with each of them the checklist rows that refer to
    it ([ON DELETE CASCADE] in the schema). *)
Definition delete_eq_id (auth_uid : option string) (id : string) (db : Database)
  : Database :=
  {| db_tasks := filter (fun t => negb (deleted_by auth_uid id t)) (db_tasks db);
     db_items :=
       filter (fun r =>
                 negb (existsb
                         (fun t =>
                            deleted_by auth_uid id t
                            && String.eqb (Task.id t) (ChecklistItem.task_id r))
                         (db_tasks db)))
              (db_items db) |}.

(** [deleteTask], alike in both revisions: [confirmed] is the answer to the
    [confirm] dialogue and [auth_uid] the user of the session (the function
    does not look at the signed-in user itself); the second component tells
    whether the list was asked to fetch again ([onUpdate], later
    [onDeleted]). *)
Definition deleteTask (auth_uid : option string) (confirmed : bool)
  (displayed : DecryptedTask) (store_error : option string) (db : Database)
  : Database * bool :=
  if confirmed then
    match store_error with
    | None => (delete_eq_id auth_uid (Task.id (columns displayed)) db, true)
    | Some _ => (db, false)
    end
  else (db, false).

(** [task.checklist.filter(item => item.completed).length] *)
Definition completedCount (displayed : DecryptedTask) : nat :=
  length (filter (fun d => ChecklistItem.completed (item d)) (checklist displayed)).

(** [task.checklist.length] *)
Definition totalCount (displayed : DecryptedTask) : nat :=
  length (checklist displayed).

(** ** What [JSON.stringify] keeps of a value *)

(** No object of the value, at any depth, has a [toJSON] method: the value
    is serialized as it stands. *)
Fixpoint calls_no_toJSON (v : JsValue) : bool :=
  match v with
  | JsArray elements => forallb calls_no_toJSON elements
  | JsObject properties =>
      match toJSON_method properties with
      | Some _ => false
      | None => forallb (fun kv => calls_no_toJSON (snd kv)) properties
      end
  | _ => true
  end.

(** The values [JSON.stringify] has no text for. *)
Definition has_no_JSON_form (v : JsValue) : bool :=
  match v with
  | JsUndefined | JsSymbol | JsFunction _ => true
  | _ => false
  end.

(** The value with the members that have no JSON form taken out of its
    objects and turned into [null] in its arrays, at every depth. *)
Fixpoint survivor (v : JsValue) : JsValue :=
  match v with
  | JsArray elements =>
      JsArray
        (map (fun e => if has_no_JSON_form e then JsNull else survivor e)
             elements)
  | JsObject properties =>
      JsObject
        ((fix survivors (l : list (string * JsValue))
            : list (string * JsValue) :=
            match l with
            | [] => []
            | (key, e) :: rest =>
                if has_no_JSON_form e then survivors rest
                else (key, survivor e) :: survivors rest
            end) properties)
  | _ => v
  end.

(** Some array or object of the value, at any depth, has a member with no
    JSON form. *)
Fixpoint has_member_without_JSON_form (v : JsValue) : bool :=
  match v with
  | JsArray elements =>
      existsb (fun e => has_no_JSON_form e || has_member_without_JSON_form e)
              elements
  | JsObject properties =>
      existsb (fun kv =>
                 has_no_JSON_form (snd kv)
                 || has_member_without_JSON_form (snd kv))
              properties
  | _ => false
  end.

(** The properties of an object that survive, by name. *)
Fixpoint surviving_properties (l : list (string * JsValue))
  : list (string * JsValue) :=
  match l with
  | [] => []
  | (key, e) :: rest =>
      if has_no_JSON_form e then surviving_properties rest
      else (key, survivor e) :: surviving_properties rest
  end.

(** The checklist of a shown task is in position order. *)
Definition checklist_in_order (shown : DecryptedTask) : Prop :=
  StronglySorted Z.le (positions (checklist shown)).

(** *** Sample data for the form *)

Definition sample_form : TaskForm.State :=
  {| TaskForm.title := "  Release 1.2 ";
     TaskForm.description := "Ship it";
     TaskForm.jiraLink := "   ";
     TaskForm.checklistItems := ["tag"; "  "; "announce"];
     TaskForm.isToday := true;
     TaskForm.loading := false;
     TaskForm.error := "" |}.

Definition sample_environment : TaskForm.Environment (C := Ref.cryptojs) :=
  TaskForm.Build_Environment Ref.cryptojs
    (fun n => ascii_of_nat (97 + n))
    "t9"
    "2024-05-01T10:00:00Z"
    (fun n => String (ascii_of_nat (48 + n)) "")
    None
    None
    (fun _ => "native").

Definition empty_database : Database := {| db_tasks := []; db_items := [] |}.

(** Every checklist row belongs to a task of the store. *)
Definition references_hold (db : Database) : Prop :=
  Forall (fun it =>
            exists t, In t (db_tasks db) /\ Task.id t = ChecklistItem.task_id it)
         (db_items db).

(** The fields of the form that hold what the user typed. *)
Definition same_input (a b : TaskForm.State) : Prop :=
  TaskForm.title a = TaskForm.title b /\
  TaskForm.description a = TaskForm.description b /\
  TaskForm.jiraLink a = TaskForm.jiraLink b /\
  TaskForm.checklistItems a = TaskForm.checklistItems b /\
  TaskForm.isToday a = TaskForm.isToday b.

(** The same surroundings, with a store that refuses the checklist rows. *)
Definition refusing_environment : TaskForm.Environment (C := Ref.cryptojs) :=
  TaskForm.Build_Environment Ref.cryptojs
    (fun n => ascii_of_nat (97 + n))
    "t9"
    "2024-05-01T10:00:00Z"
    (fun n => String (ascii_of_nat (48 + n)) "")
    None
    (Some (Error "new row violates row-level security policy"))
    (fun _ => "native").

(** The reference ciphertext of the sample form's description. *)
Definition sample_form_ciphertext : string :=
  match
    encryptData (C := Ref.cryptojs) (Some (TaskForm.description sample_form))
      "user@example.com" (TaskForm.salt_for sample_environment 0)
  with
  | Return c => c
  | Throw _ => EmptyString
  end.

(** A form with a title and checklist rows, and no description. *)
Definition titled_only_form : TaskForm.State :=
  {| TaskForm.title := "Call the bank";
     TaskForm.description := "";
     TaskForm.jiraLink := "";
     TaskForm.checklistItems := ["find the number"; "call"];
     TaskForm.isToday := true;
     TaskForm.loading := false;
     TaskForm.error := "" |}.

(** Two checklist rows that differ at most in the [completed] flag. *)
Definition same_row_but_completed (old new : ChecklistItem.t) : Prop :=
  ChecklistItem.id new = ChecklistItem.id old /\
  ChecklistItem.task_id new = ChecklistItem.task_id old /\
  ChecklistItem.encrypted_data new = ChecklistItem.encrypted_data old /\
  ChecklistItem.position new = ChecklistItem.position old /\
  ChecklistItem.created_at new = ChecklistItem.created_at old /\
  ChecklistItem.updated_at new = ChecklistItem.updated_at old.

(** Two shown records that differ at most in the [completed] flags of the
    checklist entries with the id [itemId]: the entries correspond one to
    one, in order. *)
Definition same_but_completed (itemId : string) (old new : DecryptedTask)
  : Prop :=
  columns new = columns old /\
  description new = description old /\
  Forall2 (fun o n =>
             text n = text o /\
             same_row_but_completed (item o) (item n) /\
             (ChecklistItem.id (item o) <> itemId -> n = o))
          (checklist old) (checklist new).

(** Two shown records that differ at most in [status] and [completed_at]. *)
Definition same_but_status (old new : DecryptedTask) : Prop :=
  description new = description old /\
  checklist new = checklist old /\
  Task.id (columns new) = Task.id (columns old) /\
  Task.user_id (columns new) = Task.user_id (columns old) /\
  Task.title (columns new) = Task.title (columns old) /\
  Task.jira_ticket_link (columns new) = Task.jira_ticket_link (columns old) /\
  Task.encrypted_data (columns new) = Task.encrypted_data (columns old) /\
  Task.created_at (columns new) = Task.created_at (columns old) /\
  Task.updated_at (columns new) = Task.updated_at (columns old) /\
  Task.is_today (columns new) = Task.is_today (columns old).

(** The entries of the list for the displayed task carry the displayed
    task's status and completion time. *)
Definition shows_status_of (displayed : DecryptedTask)
  (l : list DecryptedTask) : Prop :=
  forall t,
    In t l ->
    Task.id (columns t) = Task.id (columns displayed) ->
    Task.status (columns t) = Task.status (columns displayed) /\
    Task.completed_at (columns t) = Task.completed_at (columns displayed).

(** The entries of the list for the given task and checklist row carry the
    given [completed] flag. *)
Definition shows_completed (taskId itemId : string) (completed : bool)
  (l : list DecryptedTask) : Prop :=
  forall t ci,
    In t l ->
    Task.id (columns t) = taskId ->
    In ci (checklist t) ->
    ChecklistItem.id (item ci) = itemId ->
    ChecklistItem.completed (item ci) = completed.

(** A list with the sample task and a two-row checklist, one row done. *)
Definition sample_listed : DecryptedTask :=
  {| columns := sample_task "t1" "ciphertext";
     description := "Write tests";
     checklist :=
       [ {| item := sample_item "c1" "x" 0; text := "first" |};
         {| item := set_completed true (sample_item "c2" "y" 1);
            text := "second" |} ] |}.

Definition sample_shown : list DecryptedTask := [sample_listed].

Definition sample_app : App :=
  {| app_db :=
       {| db_tasks := [sample_task "t1" "ciphertext"];
          db_items := [sample_item "c1" "x" 0;
                       set_completed true (sample_item "c2" "y" 1)] |};
     app_shown := sample_shown |}.

(** A task of another user, with a checklist row that has the id of one of
    the sample user's rows, and a store with the rows of both users. *)
Definition foreign_task : Task.t :=
  {| Task.id := "t7";
     Task.user_id := "u2";
     Task.title := "Audit";
     Task.jira_ticket_link := None;
     Task.encrypted_data := "ciphertext";
     Task.status := pending;
     Task.created_at := "2024-01-01T00:00:00Z";
     Task.updated_at := "2024-01-01T00:00:00Z";
     Task.is_today := true;
     Task.completed_at := None |}.

Definition foreign_item : ChecklistItem.t :=
  {| ChecklistItem.id := "c1";
     ChecklistItem.task_id := "t7";
     ChecklistItem.encrypted_data := "z";
     ChecklistItem.completed := false;
     ChecklistItem.position := 0;
     ChecklistItem.created_at := "2024-01-01T00:00:00Z";
     ChecklistItem.updated_at := "2024-01-01T00:00:00Z" |}.

Definition shared_database : Database :=
  {| db_tasks := [sample_task "t1" "ciphertext"; foreign_task];
     db_items := [sample_item "c1" "x" 0;
                  set_completed true (sample_item "c2" "y" 1);
                  foreign_item] |}.

(** An object with members that have no JSON form, at two depths. *)
Definition object_with_methods : JsValue :=
  JsObject [("a", JsNumber 1);
            ("f", JsFunction (Return JsUndefined));
            ("l", JsArray [JsUndefined; JsString "x";
                           JsObject [("g", JsSymbol); ("n", JsNumber 3)]])].

(** The reference ciphertext of the representative object. *)
Definition representative_ciphertext : string :=
  match
    encryptObject (C := Ref.cryptojs) representative_object "user@example.com"
      "k"%char
  with
  | Return c => c
  | Throw _ => EmptyString
  end.

(** ** The writes of the application, in sequence *)

(** One call of a component that writes to the store, with what its
    surroundings decide. *)
Inductive Action {C : CryptoJS} : Type :=
| Submit (env : TaskForm.Environment) (user : option User)
    (form : TaskForm.State)
| ToggleStatus (user : option User) (displayed : DecryptedTask)
    (now store_now : string) (store_error : option string)
| ToggleItem (user : option User) (itemId : string) (currentCompleted : bool)
    (store_now : string) (store_error : option string)
| Delete (auth_uid : option string) (confirmed : bool)
    (displayed : DecryptedTask) (store_error : option string).

(** The store after the call. *)
Definition perform {C : CryptoJS} (a : Action) (db : Database) : Database :=
  match a with
  | Submit env user form => snd (fst (TaskForm.handleSubmit env user form db))
  | ToggleStatus user displayed now store_now store_error =>
      {| db_tasks :=
           fst (toggleTaskStatus user displayed now store_now store_error
                  (db_tasks db));
         db_items := db_items db |}
  | ToggleItem user itemId currentCompleted store_now store_error =>
      fst (toggleChecklistItem user itemId currentCompleted store_now
             store_error db)
  | Delete auth_uid confirmed displayed store_error =>
      fst (deleteTask auth_uid confirmed displayed store_error db)
  end.

(** The store after the calls, one after the other. *)
Definition perform_all {C : CryptoJS} (actions : list Action) (db : Database)
  : Database :=
  fold_left (fun db a => perform a db) actions db.

(** A cipher whose encryption always throws, and the sample surroundings
    over it. *)
Definition failing_cryptojs : CryptoJS :=
  {| WordArray := string;
     Salt := ascii;
     AES_encrypt := fun _ _ _ => Throw (Thrown "out of entropy");
     AES_decrypt := Ref.decrypt;
     Utf8_stringify := fun w => Return w |}.

Definition failing_environment : TaskForm.Environment (C := failing_cryptojs) :=
  TaskForm.Build_Environment failing_cryptojs
    (fun n => ascii_of_nat (97 + n))
    "t9"
    "2024-05-01T10:00:00Z"
    (fun n => String (ascii_of_nat (48 + n)) "")
    None
    None
    (fun _ => "native").

(** ** A cipher that draws a salt for a text without one *)

(** crypto-js writes the salt into a header of the ciphertext.  Handed a text
    without the header it does not refuse: it draws a salt, derives a key
    from it and deciphers the whole text.  [Drawing.cryptojs drawn] is a
    small cipher with that treatment, [drawn] being the salt of the call at
    hand. *)
Module Drawing.

Definition header : ascii := "S"%char.

Definition encrypt (message : option string) (passphrase : string)
  (salt : ascii) : Completion string :=
  let m := match message with Some s => s | None => EmptyString end in
  Return (String header
            (String salt (Ref.xor_string (Ref.derive_key passphrase salt) m))).

Definition decrypt (drawn : ascii) (ciphertext : string) (passphrase : string)
  : Completion string :=
  match ciphertext with
  | String h (String salt body) =>
      if Ascii.eqb h header
      then Return (Ref.xor_string (Ref.derive_key passphrase salt) body)
      else Return (Ref.xor_string (Ref.derive_key passphrase drawn) ciphertext)
  | _ => Return (Ref.xor_string (Ref.derive_key passphrase drawn) ciphertext)
  end.

Definition cryptojs (drawn : ascii) : CryptoJS := {|
  WordArray := string;
  Salt := ascii;
  AES_encrypt := encrypt;
  AES_decrypt := decrypt drawn;
  Utf8_stringify := fun w => Return w
|}.

End Drawing.

(** The salt can be read off the ciphertext (the OpenSSL format puts it in
    the header). *)
Definition salt_in_header {C : CryptoJS} : Prop :=
  exists header_salt : string -> option Salt,
    forall (m : option string) (p : string) (k : Salt) (c : string),
      AES_encrypt m p k = Return c -> header_salt c = Some k.

(** * Properties *)

(** ** [decryptData] and [encryptData] *)

Lemma falsy_true (text : string) : falsy text = true <-> text = EmptyString.
Proof.
  destruct text; simpl; split; intro H; try reflexivity; discriminate.
Qed.

Lemma falsy_false (text : string) : falsy text = false <-> text <> EmptyString.
Proof.
  destruct text; simpl; split; intro H; try reflexivity; try discriminate.
  now contradiction H.
Qed.

(** [decryptData] by the outcome of the library's two steps. *)
Lemma decryptData_unfold {C : CryptoJS} (c p : string) :
  decryptData c p =
  match AES_decrypt c p with
  | Throw _ => Throw DecryptionError
  | Return w =>
      match Utf8_stringify w with
      | Throw _ => Throw DecryptionError
      | Return text =>
          if falsy text then Throw DecryptionError else Return text
      end
  end.
Proof.
  unfold decryptData, try_catch, bind.
  destruct (AES_decrypt c p) as [w|e]; [|reflexivity].
  destruct (Utf8_stringify w) as [text|e]; [|reflexivity].
  destruct (falsy text); reflexivity.
Qed.

Lemma decryptData_Return {C : CryptoJS} (c p text : string) :
  decryptData c p = Return text <->
  text <> EmptyString /\
  exists w, AES_decrypt c p = Return w /\ Utf8_stringify w = Return text.
Proof.
  rewrite decryptData_unfold.
  destruct (AES_decrypt c p) as [w|e].
  - destruct (Utf8_stringify w) as [t|e] eqn:U.
    + destruct (falsy t) eqn:F.
      * apply falsy_true in F. subst t. split; [discriminate|].
        intros [Hne (w' & Hw & Hu)]. injection Hw as <-.
        rewrite U in Hu. injection Hu as <-. now contradiction Hne.
      * apply falsy_false in F. split.
        -- intros [= <-]. split; [assumption|]. exists w; split; [reflexivity|assumption].
        -- intros [_ (w' & Hw & Hu)]. injection Hw as <-.
           rewrite U in Hu. injection Hu as <-. reflexivity.
    + split; [discriminate|].
      intros [_ (w' & Hw & Hu)]. injection Hw as <-. rewrite U in Hu. discriminate.
  - split; [discriminate|]. intros [_ (w' & Hw & _)]. discriminate.
Qed.

Lemma decryptData_Throw {C : CryptoJS} (c p : string) (e : JsError) :
  decryptData c p = Throw e -> e = DecryptionError.
Proof.
  rewrite decryptData_unfold.
  destruct (AES_decrypt c p) as [w|e0]; [|now intros [= <-]].
  destruct (Utf8_stringify w) as [t|e0]; [|now intros [= <-]].
  destruct (falsy t); [now intros [= <-]|discriminate].
Qed.

Lemma decryptData_never_empty {C : CryptoJS} (c p : string) :
  decryptData c p <> Return EmptyString.
Proof.
  intro H. apply decryptData_Return in H. destruct H as [H _]. now apply H.
Qed.

Lemma decryptData_rejected {C : CryptoJS} (c p : string) :
  rejected c p <-> decryptData c p = Throw DecryptionError.
Proof.
  rewrite decryptData_unfold. split.
  - intros [e He|w e Hw He|w Hw He]; rewrite ?He, ?Hw, ?He; reflexivity.
  - destruct (AES_decrypt c p) as [w|e] eqn:D.
    + destruct (Utf8_stringify w) as [t|e] eqn:U.
      * destruct (falsy t) eqn:F; [|discriminate].
        apply falsy_true in F. subst t. intros _.
        now apply decodes_to_empty with w.
      * intros _. now apply decode_throws with w e.
    + intros _. now apply decrypt_throws with e.
Qed.

Lemma encryptData_unfold {C : CryptoJS} (data : option string) (p : string)
  (k : Salt) :
  encryptData data p k =
  match AES_encrypt data p k with
  | Return c => Return c
  | Throw _ => Throw EncryptionError
  end.
Proof.
  unfold encryptData, try_catch, bind.
  destruct (AES_encrypt data p k); reflexivity.
Qed.

Lemma encryptData_Return {C : CryptoJS} (data : option string) (p : string)
  (k : Salt) (c : string) :
  encryptData data p k = Return c <-> AES_encrypt data p k = Return c.
Proof.
  rewrite encryptData_unfold.
  destruct (AES_encrypt data p k); split; congruence.
Qed.

Lemma encryptData_Throw {C : CryptoJS} (data : option string) (p : string)
  (k : Salt) (e : JsError) :
  encryptData data p k = Throw e -> e = EncryptionError.
Proof.
  rewrite encryptData_unfold.
  destruct (AES_encrypt data p k); [discriminate|now intros [= <-]].
Qed.

(** A non-empty text that the library round-trips is round-tripped by the
    codec. *)
Lemma codec_round_trip {C : CryptoJS} (s p : string) (k : Salt) :
  round_trips_under p ->
  s <> EmptyString ->
  exists c, encryptData (Some s) p k = Return c /\ decryptData c p = Return s.
Proof.
  intros RT Hs. destruct (RT s k) as (c & w & He & Hd & Hu).
  exists c. split.
  - now apply encryptData_Return.
  - apply decryptData_Return. split; [assumption|]. now exists w.
Qed.

(** A ciphertext of the empty text is refused by [decryptData]. *)
Lemma codec_empty_text {C : CryptoJS} (p : string) (k : Salt) :
  round_trips_under p ->
  exists c,
    encryptData (Some EmptyString) p k = Return c /\
    decryptData c p = Throw DecryptionError.
Proof.
  intros RT. destruct (RT EmptyString k) as (c & w & He & Hd & Hu).
  exists c. split.
  - now apply encryptData_Return.
  - apply decryptData_rejected. now apply decodes_to_empty with w.
Qed.

(** Under another passphrase the codec returns exactly what the library
    recovers: [decryptData] holds nothing to compare the passphrase with, so
    whether a wrong passphrase can give the text back is the library's
    matter. *)
Lemma decryptData_under_other_passphrase {C : CryptoJS} (s p1 p2 : string)
  (k : Salt) (c : string) :
  encryptData (Some s) p1 k = Return c ->
  (decryptData c p2 = Return s <->
   s <> EmptyString /\
   exists w, AES_decrypt c p2 = Return w /\ Utf8_stringify w = Return s).
Proof.
  intros _. apply decryptData_Return.
Qed.

(** ** The reference cipher meets what is assumed of the library *)

Lemma xor_ascii_involutive (a k : ascii) :
  Ref.xor_ascii (Ref.xor_ascii a k) k = a.
Proof.
  destruct a, k. simpl.
  repeat rewrite Bool.xorb_assoc.
  repeat rewrite Bool.xorb_nilpotent.
  repeat rewrite Bool.xorb_false_r.
  reflexivity.
Qed.

Lemma xor_string_involutive (k : ascii) (s : string) :
  Ref.xor_string k (Ref.xor_string k s) = s.
Proof.
  induction s as [|c s IH]; simpl.
  - reflexivity.
  - now rewrite xor_ascii_involutive, IH.
Qed.

Lemma Ref_round_trips (p : string) : round_trips_under (C := Ref.cryptojs) p.
Proof.
  intros s k. simpl.
  exists (String k (Ref.xor_string (Ref.derive_key p k) (String Ref.marker s))), s.
  split; [reflexivity|]. split; [|reflexivity].
  unfold Ref.decrypt. rewrite xor_string_involutive.
  now rewrite Ascii.eqb_refl.
Qed.

Lemma Ref_salt_embedded : salt_embedded (C := Ref.cryptojs).
Proof.
  intros m p k1 k2 c H1 H2. simpl in *. unfold Ref.encrypt in *.
  congruence.
Qed.


(** A salt that can be read off the ciphertext is embedded in it. *)
Lemma salt_in_header_embedded {C : CryptoJS} : salt_in_header -> salt_embedded.
Proof.
  intros [header_salt H] m p k1 k2 c H1 H2.
  apply H in H1, H2. congruence.
Qed.

(** The drawing cipher meets what is assumed of the library, whatever it
    draws. *)
Lemma Drawing_round_trips (drawn : ascii) (p : string) :
  round_trips_under (C := Drawing.cryptojs drawn) p.
Proof.
  intros s k. simpl.
  exists (String Drawing.header
            (String k (Ref.xor_string (Ref.derive_key p k) s))), s.
  split; [reflexivity|]. split; [|reflexivity].
  unfold Drawing.decrypt. rewrite Ascii.eqb_refl.
  now rewrite xor_string_involutive.
Qed.

Lemma Drawing_salt_in_header (drawn : ascii) :
  salt_in_header (C := Drawing.cryptojs drawn).
Proof.
  exists (fun c => match c with
                   | String _ (String k _) => Some k
                   | _ => None
                   end).
  intros m p k c. simpl. unfold Drawing.encrypt. now intros [= <-].
Qed.

(** ** The claims about the codec *)

(** C1 (as amended).  Round-trip law: for every non-empty text [s], every
    non-empty passphrase [p] and every salt the library draws,
    [encryptData s p] succeeds and [decryptData] of its result under [p]
    returns [s] -- given that the library itself round-trips under non-empty
    passphrases.  The empty text is excluded: [decryptData] refuses it. *)
Theorem decrypt_encrypt_round_trip {C : CryptoJS} :
  (forall p, p <> EmptyString -> round_trips_under p) ->
  forall (s p : string) (k : Salt),
    s <> EmptyString ->
    p <> EmptyString ->
    exists c,
      encryptData (Some s) p k = Return c /\ decryptData c p = Return s.
Proof.
  intros RT s p k Hs Hp. apply codec_round_trip; [now apply RT|assumption].
Qed.

Lemma decrypt_encrypt_round_trip_witness :
  exists c,
    encryptData (C := Ref.cryptojs) (Some sample_text) "user@example.com" "k"%char
      = Return c /\
    decryptData (C := Ref.cryptojs) c "user@example.com" = Return sample_text.
Proof.
  apply (decrypt_encrypt_round_trip (C := Ref.cryptojs)).
  - intros p _. apply Ref_round_trips.
  - discriminate.
  - discriminate.
Defined.

(** C1, the claim as stated, fails at the empty text: whatever the library
    does, no passphrase and no salt make [decryptData (encryptData "" p) p]
    return the empty text; on the reference cipher the call throws. *)
Lemma round_trip_fails_on_empty_text :
  (~ exists (C : CryptoJS) (p : string) (k : Salt) (c : string),
       p <> EmptyString /\
       encryptData (Some EmptyString) p k = Return c /\
       decryptData c p = Return EmptyString) /\
  (c <- encryptData (C := Ref.cryptojs) (Some EmptyString) "user@example.com" "k"%char ;;
   decryptData (C := Ref.cryptojs) c "user@example.com")
  = Throw DecryptionError.
Proof.
  split.
  - intros (C & p & k & c & _ & _ & H). now apply decryptData_never_empty in H.
  - reflexivity.
Qed.

(** C2.  Empty-decode heuristic: when the library deciphers and decodes a
    ciphertext to the empty text without throwing, [decryptData] throws its
    decryption error; so [decryptData] never returns the empty text, and a
    ciphertext that [encryptData] made of the empty text is refused too. *)
Theorem empty_decode_is_failure {C : CryptoJS} (p : string) :
  (forall (c : string) (w : WordArray),
      AES_decrypt c p = Return w ->
      Utf8_stringify w = Return EmptyString ->
      decryptData c p = Throw DecryptionError) /\
  (forall c : string, decryptData c p <> Return EmptyString) /\
  (forall k : Salt,
      round_trips_under p ->
      exists c,
        encryptData (Some EmptyString) p k = Return c /\
        decryptData c p = Throw DecryptionError).
Proof.
  split; [|split].
  - intros c w Hd Hu. apply decryptData_rejected. now apply decodes_to_empty with w.
  - intros c. apply decryptData_never_empty.
  - intros k RT. now apply codec_empty_text.
Qed.

Lemma empty_decode_is_failure_witness :
  exists c,
    encryptData (C := Ref.cryptojs) (Some EmptyString) "user@example.com" "k"%char
      = Return c /\
    decryptData (C := Ref.cryptojs) c "user@example.com" = Throw DecryptionError.
Proof.
  apply (proj2 (proj2 (empty_decode_is_failure (C := Ref.cryptojs) "user@example.com"))).
  apply Ref_round_trips.
Defined.




(** C5 (as amended).  [decryptData] signals nothing but its typed decryption
    error: for every input string and passphrase, when the library cannot
    recover a text from the input (it throws while deciphering, throws while
    decoding UTF-8, or decodes to nothing) [decryptData] throws its
    decryption error, and only then; no other error ever leaves
    [decryptData], in particular none of the library's; and a returned text
    is a non-empty one the library recovered.  Whether an input that
    [encryptData] did not produce is refused is thereby the library's
    verdict, and not always a refusal. *)
Theorem malformed_input_is_decryption_error {C : CryptoJS} (c p : string) :
  (rejected c p <-> decryptData c p = Throw DecryptionError) /\
  (forall e, decryptData c p = Throw e -> e = DecryptionError) /\
  (rejected c p \/
   exists text w,
     AES_decrypt c p = Return w /\ Utf8_stringify w = Return text /\
     text <> EmptyString /\ decryptData c p = Return text).
Proof.
  split; [apply decryptData_rejected|]. split; [apply decryptData_Throw|].
  destruct (decryptData c p) as [text|e] eqn:D.
  - right. pose proof D as D'. apply decryptData_Return in D'.
    destruct D' as [Hne (w & Hw & Hu)]. exists text, w. now repeat split.
  - left. apply decryptData_rejected.
    now rewrite (decryptData_Throw _ _ _ D) in D.
Qed.

Lemma malformed_input_is_decryption_error_witness :
  decryptData (C := Ref.cryptojs) "not-valid-ciphertext" "user@example.com"
  = Throw DecryptionError.
Proof.
  apply (proj1 (malformed_input_is_decryption_error (C := Ref.cryptojs)
                  "not-valid-ciphertext" "user@example.com")).
  apply decrypt_throws with (Thrown "bad data"). reflexivity.
Defined.

(** C5, the claim as stated, fails: a string that [encryptData] never
    produces can come back from [decryptData] as a text.  crypto-js does
    not refuse a text without a salt header; it draws a salt and deciphers
    the text as it is, and when the bytes it gets happen to be non-empty
    well-formed UTF-8 [decryptData] returns them.  On the drawing cipher,
    which round-trips under every passphrase and writes the salt into the
    header: no message, passphrase and salt encrypt to
    ["not-valid-ciphertext"], and under the sample address [decryptData]
    returns a text for it. *)
Lemma malformed_input_can_decrypt_to_garbage :
  (forall p : string, round_trips_under (C := Drawing.cryptojs "w"%char) p) /\
  salt_in_header (C := Drawing.cryptojs "w"%char) /\
  (forall (m : option string) (p : string) (k : ascii),
      encryptData (C := Drawing.cryptojs "w"%char) m p k
      <> Return "not-valid-ciphertext") /\
  decryptData (C := Drawing.cryptojs "w"%char) "not-valid-ciphertext"
    "user@example.com"
  = Return "onu,w`mhe,bhqidsudyu".
Proof.
  split; [apply Drawing_round_trips|].
  split; [apply Drawing_salt_in_header|]. split; [|reflexivity].
  intros m p k. unfold encryptData, try_catch, bind. simpl.
  unfold Drawing.encrypt, Drawing.header. discriminate.
Qed.

(** ** [JSON.stringify] *)

(** Induction on values that reaches the members of arrays and objects and
    what a function returns. *)
Lemma JsValue_nested_ind (P : JsValue -> Prop) :
  P JsUndefined -> P JsNull -> (forall b, P (JsBoolean b)) ->
  (forall n, P (JsNumber n)) -> (forall s, P (JsString s)) ->
  (forall n, P (JsBigInt n)) -> P JsSymbol ->
  (forall e, P (JsFunction (Throw e))) ->
  (forall r, P r -> P (JsFunction (Return r))) ->
  (forall l, Forall P l -> P (JsArray l)) ->
  (forall ps, Forall (fun kv => P (snd kv)) ps -> P (JsObject ps)) ->
  P JsCircular ->
  forall v, P v.
Proof.
  intros Hu Hn Hb Hnum Hs Hbig Hsym Hthrow Hreturn Harr Hobj Hc.
  fix IH 1. intros [| |b|n|s|n| |[r|e]|l|ps|].
  - exact Hu.
  - exact Hn.
  - apply Hb.
  - apply Hnum.
  - apply Hs.
  - apply Hbig.
  - exact Hsym.
  - apply Hreturn. apply IH.
  - apply Hthrow.
  - apply Harr. induction l as [|x xs IHxs]; constructor; [apply IH|apply IHxs].
  - apply Hobj. induction ps as [|[k x] xs IHxs]; constructor; [apply IH|apply IHxs].
  - exact Hc.
Qed.

(** *** The serializer, case by case *)

Lemma SerializeJSONProperty_array (hook : bool) (l : list JsValue) :
  SerializeJSONProperty hook (JsArray l) = SerializeJSONArray l.
Proof. destruct hook; reflexivity. Qed.

Lemma SerializeJSONProperty_object (ps : list (string * JsValue)) :
  SerializeJSONProperty false (JsObject ps) = SerializeJSONObject ps.
Proof. reflexivity. Qed.

(** The [toJSON] step on an object. *)
Lemma SerializeJSONProperty_toJSON (ps : list (string * JsValue)) :
  SerializeJSONProperty true (JsObject ps) =
  match toJSON_method ps with
  | Some (Return value) => SerializeJSONProperty false value
  | Some (Throw error) => Throw error
  | None => SerializeJSONObject ps
  end.
Proof.
  change (SerializeJSONProperty true (JsObject ps)) with
    ((fix call_toJSON (l : list (string * JsValue))
        : Completion (option string) :=
        match l with
        | [] => SerializeJSONObject ps
        | (key, e) :: rest =>
            if String.eqb key "toJSON" then
              match e with
              | JsFunction (Return value) => SerializeJSONProperty false value
              | JsFunction (Throw error) => Throw error
              | _ => SerializeJSONObject ps
              end
            else call_toJSON rest
        end) ps).
  generalize (SerializeJSONObject ps) as plain. intros plain.
  induction ps as [|[key e] rest IH]; [reflexivity|].
  cbn [toJSON_method]. destruct (String.eqb key "toJSON").
  - destruct e as [| | | | | | |[r|er]| | |]; reflexivity.
  - exact IH.
Qed.

(** A value that is not an object is serialized alike before and after the
    [toJSON] step. *)
Lemma SerializeJSONProperty_hook (hook : bool) (v : JsValue) :
  (forall ps, v = JsObject ps -> toJSON_method ps = None) ->
  SerializeJSONProperty hook v = SerializeJSONProperty false v.
Proof.
  intros H. destruct hook; [|reflexivity].
  destruct v as [| |b|n|s|n| |c|l|ps|]; try reflexivity.
  rewrite SerializeJSONProperty_toJSON. now rewrite (H ps eq_refl).
Qed.

Lemma digits_nonempty (n : Z) : digits n <> EmptyString.
Proof.
  unfold digits.
  destruct (Z.to_int n) as [d|d]; simpl.
  - destruct d; discriminate.
  - discriminate.
Qed.

Lemma unsigned_to_string_nonempty (x : Z) : unsigned_to_string x <> EmptyString.
Proof.
  unfold unsigned_to_string.
  destruct (x <? 2 ^ 53)%Z; [apply digits_nonempty|].
  destruct (shortest (Z.to_nat (Z.log2 x)) x 1 x) as [v p].
  destruct (String.length (digits v) <=? 21)%nat; [apply digits_nonempty|].
  pose proof (digits_nonempty (v / p)) as H.
  destruct (digits (v / p)) as [|d [|d' rest]];
    [now contradiction H|discriminate|discriminate].
Qed.

Lemma number_to_string_nonempty (n : Z) : number_to_string n <> EmptyString.
Proof.
  unfold number_to_string.
  destruct (Number_value (Z.abs n)) as [x|]; destruct (n <? 0)%Z;
    try discriminate.
  apply unsigned_to_string_nonempty.
Qed.

Lemma SerializeJSONProperty_nonempty (hook : bool) (v : JsValue)
  (json : string) :
  SerializeJSONProperty hook v = Return (Some json) -> json <> EmptyString.
Proof.
  assert (plain : forall v json,
             SerializeJSONProperty false v = Return (Some json) ->
             json <> EmptyString).
  { clear. intros v json.
    destruct v as [| |[|]|n|s|n| |c|l|ps|];
      try (cbn; discriminate); try (cbn; intros [= <-]; discriminate).
    - cbn. intros [= <-].
      destruct (is_finite n); [apply number_to_string_nonempty|discriminate].
    - rewrite SerializeJSONProperty_array. unfold SerializeJSONArray, bind.
      destruct (serialize_elements l); [intros [= <-]|]; discriminate.
    - rewrite SerializeJSONProperty_object. unfold SerializeJSONObject, bind.
      destruct (serialize_properties ps); [intros [= <-]|]; discriminate. }
  destruct hook; [|apply plain].
  destruct v as [| |b|n|s|n| |c|l|ps|];
    try (rewrite SerializeJSONProperty_hook by (intros qs; discriminate);
         apply plain).
  rewrite SerializeJSONProperty_toJSON.
  destruct (toJSON_method ps) as [[r|e]|]; [apply plain|discriminate|].
  apply (plain (JsObject ps)).
Qed.

(** [JSON.stringify] never returns the empty string. *)
Lemma JSON_stringify_nonempty (v : JsValue) (json : string) :
  JSON_stringify v = Return (Some json) -> json <> EmptyString.
Proof. apply SerializeJSONProperty_nonempty. Qed.

(** The members of an array, serialized in order. *)
Lemma serialize_elements_throws (l : list JsValue) :
  Forall (fun v =>
            if contains_bigint_or_cycle v
            then SerializeJSONProperty true v = Throw TypeError
            else exists r, SerializeJSONProperty true v = Return r) l ->
  if existsb contains_bigint_or_cycle l
  then serialize_elements l = Throw TypeError
  else exists parts, serialize_elements l = Return parts.
Proof.
  intros H. induction H as [|v l Hv Hl IH]; cbn [existsb serialize_elements].
  - now exists [].
  - destruct (contains_bigint_or_cycle v); cbn [orb].
    + now rewrite Hv.
    + destruct Hv as [r ->]. cbn [bind].
      destruct (existsb contains_bigint_or_cycle l).
      * now rewrite IH.
      * destruct IH as [parts IH]. rewrite IH. cbn [bind]. eauto.
Qed.

Lemma serialize_properties_throws (ps : list (string * JsValue)) :
  Forall (fun kv =>
            if contains_bigint_or_cycle (snd kv)
            then SerializeJSONProperty true (snd kv) = Throw TypeError
            else exists r, SerializeJSONProperty true (snd kv) = Return r) ps ->
  if existsb (fun kv => contains_bigint_or_cycle (snd kv)) ps
  then serialize_properties ps = Throw TypeError
  else exists parts, serialize_properties ps = Return parts.
Proof.
  intros H.
  induction H as [|[key v] l Hv Hl IH];
    cbn [existsb serialize_properties snd] in *.
  - now exists [].
  - destruct (contains_bigint_or_cycle v); cbn [orb].
    + now rewrite Hv.
    + destruct Hv as [r ->]. cbn [bind].
      destruct (existsb (fun kv => contains_bigint_or_cycle (snd kv)) l).
      * now rewrite IH.
      * destruct IH as [parts IH]. rewrite IH. cbn [bind]. eauto.
Qed.

Lemma Forall_forallb_impl {A : Type} (P : A -> Prop) (f : A -> bool)
  (l : list A) :
  Forall (fun x => f x = true -> P x) l -> forallb f l = true -> Forall P l.
Proof.
  intros H. induction H as [|x l Hx Hl IH]; cbn [forallb]; intros E;
    constructor; apply Bool.andb_true_iff in E; destruct E as [E1 E2];
    [now apply Hx|now apply IH].
Qed.

(** On a value without [toJSON] methods, [JSON.stringify] throws exactly
    when the value contains a BigInt or a circular reference, and what it
    throws is a TypeError. *)
Lemma SerializeJSONProperty_throws (v : JsValue) :
  calls_no_toJSON v = true ->
  if contains_bigint_or_cycle v
  then SerializeJSONProperty true v = Throw TypeError
  else exists r, SerializeJSONProperty true v = Return r.
Proof.
  induction v as [| |b|n|s|n| |e|r IHr|l IH|ps IH|] using JsValue_nested_ind;
    intros N; cbn [contains_bigint_or_cycle]; try (cbn; eauto; fail).
  - destruct b; cbn; eauto.
  - cbn [calls_no_toJSON] in N.
    pose proof (serialize_elements_throws l (Forall_forallb_impl _ _ _ IH N)) as H.
    rewrite SerializeJSONProperty_array. unfold SerializeJSONArray.
    destruct (existsb contains_bigint_or_cycle l).
    + now rewrite H.
    + destruct H as [parts ->]. cbn [bind]. eauto.
  - cbn [calls_no_toJSON] in N.
    rewrite SerializeJSONProperty_toJSON.
    destruct (toJSON_method ps); [discriminate|].
    pose proof (serialize_properties_throws ps
                  (Forall_forallb_impl _ (fun kv => calls_no_toJSON (snd kv))
                     _ IH N)) as H.
    cbv beta in H.
    unfold SerializeJSONObject.
    destruct (existsb (fun kv => contains_bigint_or_cycle (snd kv)) ps).
    + now rewrite H.
    + destruct H as [parts ->]. cbn [bind]. eauto.
Qed.

Lemma JSON_stringify_throws (v : JsValue) :
  calls_no_toJSON v = true ->
  if contains_bigint_or_cycle v
  then JSON_stringify v = Throw TypeError
  else exists r, JSON_stringify v = Return r.
Proof. apply SerializeJSONProperty_throws. Qed.

(** ** The claims about the object helpers *)

Lemma encryptObject_unfold {C : CryptoJS} (v : JsValue) (p : string) (k : Salt) :
  encryptObject v p k =
  match JSON_stringify v with
  | Return json => encryptData json p k
  | Throw e => Throw e
  end.
Proof. reflexivity. Qed.

Lemma decryptObject_unfold {C : CryptoJS} {J : JSONParser} (c p : string) :
  decryptObject c p =
  match decryptData c p with
  | Return text =>
      match JSON_parse text with
      | Some value => Return value
      | None => Throw SyntaxError
      end
  | Throw e => Throw e
  end.
Proof. reflexivity. Qed.

(** C6 (as amended).  Error taxonomy of the object helpers, for every
    passphrase [p]:
    - on a value none of whose objects has a [toJSON] method,
      [encryptObject] throws the serializer's TypeError when the value
      contains a BigInt or a circular reference; on any other such value
      serialization raises nothing and the helper is [encryptData] of what
      [JSON.stringify] returned (members that are [undefined], functions or
      symbols are dropped from objects and written as [null] in arrays);
    - an object with a [toJSON] method is encrypted as what the method
      returns, and what the method throws leaves [encryptObject] as it is;
    - [decryptObject] throws the decryption error when [decryptData] fails;
    - [decryptObject] throws a SyntaxError, which is not the decryption
      error, when the decrypted text is not JSON. *)
Theorem object_helpers_error_taxonomy {C : CryptoJS} {J : JSONParser}
  (p : string) :
  (forall (v : JsValue) (k : Salt),
      calls_no_toJSON v = true ->
      contains_bigint_or_cycle v = true ->
      encryptObject v p k = Throw TypeError) /\
  (forall (v : JsValue) (k : Salt),
      calls_no_toJSON v = true ->
      contains_bigint_or_cycle v = false ->
      exists json,
        JSON_stringify v = Return json /\
        encryptObject v p k = encryptData json p k) /\
  (forall (ps : list (string * JsValue)) (value : JsValue) (k : Salt),
      toJSON_method ps = Some (Return value) ->
      (forall qs, value = JsObject qs -> toJSON_method qs = None) ->
      encryptObject (JsObject ps) p k = encryptObject value p k) /\
  (forall (ps : list (string * JsValue)) (error : JsError) (k : Salt),
      toJSON_method ps = Some (Throw error) ->
      encryptObject (JsObject ps) p k = Throw error) /\
  (forall (c : string) (e : JsError),
      decryptData c p = Throw e ->
      decryptObject c p = Throw DecryptionError) /\
  (forall c text : string,
      decryptData c p = Return text ->
      JSON_parse text = None ->
      decryptObject c p = Throw SyntaxError) /\
  SyntaxError <> DecryptionError /\
  TypeError <> EncryptionError.
Proof.
  repeat split; try discriminate.
  - intros v k Hn Hv. rewrite encryptObject_unfold.
    pose proof (JSON_stringify_throws v Hn) as H. rewrite Hv in H. now rewrite H.
  - intros v k Hn Hv.
    pose proof (JSON_stringify_throws v Hn) as H. rewrite Hv in H.
    destruct H as [json H]. exists json. split; [assumption|].
    rewrite encryptObject_unfold. now rewrite H.
  - intros ps value k Hm Hv. rewrite !encryptObject_unfold.
    unfold JSON_stringify. rewrite SerializeJSONProperty_toJSON, Hm.
    now rewrite (SerializeJSONProperty_hook true value Hv).
  - intros ps error k Hm. rewrite encryptObject_unfold.
    unfold JSON_stringify. now rewrite SerializeJSONProperty_toJSON, Hm.
  - intros c e H. rewrite decryptObject_unfold, H.
    now rewrite (decryptData_Throw _ _ _ H).
  - intros c text H HJ. rewrite decryptObject_unfold, H. now rewrite HJ.
Qed.

(** Two runs on the reference libraries: an object that refers to itself,
    and the ciphertext of a text that is not JSON. *)
Lemma object_helpers_error_taxonomy_witness :
  encryptObject (C := Ref.cryptojs)
    (JsObject [("name", JsString "loop"); ("self", JsCircular)])
    "user@example.com" "k"%char
  = Throw TypeError /\
  decryptObject (C := Ref.cryptojs) (J := Ref.json) "k>rrmn" "user@example.com"
  = Throw SyntaxError.
Proof.
  pose proof (object_helpers_error_taxonomy (C := Ref.cryptojs) (J := Ref.json)
                "user@example.com") as (H1 & _ & _ & _ & _ & H4 & _).
  split.
  - apply H1; reflexivity.
  - apply H4 with "oops"; reflexivity.
Defined.

(** C6, the claim as stated, fails on members of unsupported types.  An
    object with a function member is serialized as the empty object and no
    error is raised for it: on the reference libraries the call succeeds
    and the ciphertext reads back as the empty object; whatever the library,
    the only error [encryptObject] can throw here is the cipher's.  And an
    object with a [toJSON] method is serialized as what the method returns:
    the BigInt beside it raises nothing. *)
Lemma function_member_raises_no_error :
  JSON_stringify (JsObject [("f", JsFunction (Return JsUndefined))])
  = Return (Some "{}") /\
  (c <- encryptObject (C := Ref.cryptojs)
          (JsObject [("f", JsFunction (Return JsUndefined))])
          "user@example.com" "k"%char ;;
   decryptObject (C := Ref.cryptojs) (J := Ref.json) c "user@example.com")
  = Return (JsObject []) /\
  ~ (exists (C : CryptoJS) (p : string) (k : Salt) (e : JsError),
        encryptObject (JsObject [("f", JsFunction (Return JsUndefined))]) p k
        = Throw e /\
        e <> EncryptionError) /\
  JSON_stringify
    (JsObject [("toJSON", JsFunction (Return (JsNumber 1)));
               ("b", JsBigInt 10)])
  = Return (Some "1").
Proof.
  split; [reflexivity|]. split; [reflexivity|]. split; [|reflexivity].
  intros (C & p & k & e & H & Hne). apply Hne.
  rewrite encryptObject_unfold in H. cbn in H.
  now apply encryptData_Throw in H.
Qed.

(** C7.  Object round trip: for every JSON-serializable object [obj] (one
    that [JSON.stringify] writes as a text from which [JSON.parse] reads
    [obj] back) and every non-empty passphrase [p] (the spec's
    ["user@example.com"] among them), [encryptObject obj p] succeeds and
    [decryptObject] of its result under [p] returns [obj] -- given that the
    library round-trips under non-empty passphrases.  The serialization is
    never empty, so the empty-text guard of [decryptData] does not
    interfere. *)
Theorem object_round_trip {C : CryptoJS} {J : JSONParser} :
  (forall p, p <> EmptyString -> round_trips_under p) ->
  forall (obj : JsValue) (p : string) (k : Salt),
    p <> EmptyString ->
    JSON_serializable obj ->
    exists c,
      encryptObject obj p k = Return c /\ decryptObject c p = Return obj.
Proof.
  intros RT obj p k Hp (json & Hs & Hj).
  destruct (codec_round_trip json p k (RT p Hp) (JSON_stringify_nonempty _ _ Hs))
    as (c & He & Hd).
  exists c. split.
  - rewrite encryptObject_unfold. now rewrite Hs.
  - rewrite decryptObject_unfold, Hd. now rewrite Hj.
Qed.

(** The spec's representative object under the spec's passphrase. *)
Lemma object_round_trip_witness :
  exists c,
    encryptObject (C := Ref.cryptojs) representative_object "user@example.com"
      "k"%char = Return c /\
    decryptObject (C := Ref.cryptojs) (J := Ref.json) c "user@example.com"
      = Return representative_object.
Proof.
  apply (object_round_trip (C := Ref.cryptojs) (J := Ref.json)).
  - intros p _. apply Ref_round_trips.
  - discriminate.
  - eexists. split; reflexivity.
Defined.

(** ** [map] with a callback that may throw *)

Lemma map_throwing_Return {A B : Type} (f : A -> Completion B) (xs : list A)
  (ys : list B) :
  map_throwing f xs = Return ys <-> Forall2 (fun x y => f x = Return y) xs ys.
Proof.
  revert ys. induction xs as [|x xs IH]; intros ys; simpl.
  - split.
    + intros [= <-]. constructor.
    + intros H. inversion H. reflexivity.
  - unfold bind. destruct (f x) as [y|e] eqn:Fx.
    + destruct (map_throwing f xs) as [ys'|e] eqn:M.
      * split.
        -- intros [= <-]. constructor; [assumption|]. now apply IH.
        -- intros H. inversion H as [|x0 y0 xs0 ys0 Hxy Hrest]; subst.
           apply IH in Hrest. congruence.
      * split; [discriminate|].
        intros H. inversion H as [|x0 y0 xs0 ys0 Hxy Hrest]; subst.
        apply IH in Hrest. discriminate.
    + split; [discriminate|].
      intros H. inversion H; subst. congruence.
Qed.

Lemma map_throwing_Throw {A B : Type} (f : A -> Completion B) (xs : list A)
  (e : JsError) :
  map_throwing f xs = Throw e -> Exists (fun x => exists e', f x = Throw e') xs.
Proof.
  induction xs as [|x xs IH]; simpl; [discriminate|].
  unfold bind. destruct (f x) as [y|e0] eqn:Fx.
  - destruct (map_throwing f xs) as [ys|e0]; [discriminate|].
    intros H. apply Exists_cons_tl. now apply IH.
  - intros _. apply Exists_cons_hd. now exists e0.
Qed.

(** ** [Array.prototype.sort] by position *)

Lemma insert_sorted_Permutation {A : Type} (cmp : A -> A -> Z) (x : A)
  (l : list A) :
  Permutation (insert_sorted cmp x l) (x :: l).
Proof.
  induction l as [|y l IH]; simpl.
  - apply Permutation_refl.
  - destruct (cmp x y <=? 0)%Z.
    + apply Permutation_refl.
    + apply perm_trans with (y :: x :: l).
      * now apply perm_skip.
      * apply perm_swap.
Qed.

(** Sorting rearranges: nothing is lost, added or duplicated. *)
Lemma Array_sort_Permutation {A : Type} (cmp : A -> A -> Z) (l : list A) :
  Permutation (Array_sort cmp l) l.
Proof.
  induction l as [|x l IH]; simpl.
  - apply perm_nil.
  - apply perm_trans with (x :: Array_sort cmp l).
    + apply insert_sorted_Permutation.
    + now apply perm_skip.
Qed.

Lemma insert_by_position_Sorted (x : ChecklistItem.t)
  (l : list ChecklistItem.t) :
  Sorted position_le l -> Sorted position_le (insert_sorted by_position x l).
Proof.
  induction 1 as [|y l Hl IH Hhd]; simpl.
  - repeat constructor.
  - destruct (by_position x y <=? 0)%Z eqn:Cmp.
    + apply Z.leb_le in Cmp. unfold by_position in Cmp.
      constructor; [now constructor|]. constructor. unfold position_le. lia.
    + apply Z.leb_gt in Cmp. unfold by_position in Cmp.
      constructor; [assumption|].
      destruct l as [|z l]; simpl.
      * constructor. unfold position_le. lia.
      * destruct (by_position x z <=? 0)%Z.
        -- constructor. unfold position_le. lia.
        -- inversion Hhd; subst. now constructor.
Qed.

Lemma Array_sort_by_position_Sorted (l : list ChecklistItem.t) :
  Sorted position_le (Array_sort by_position l).
Proof.
  induction l as [|x l IH]; simpl.
  - constructor.
  - now apply insert_by_position_Sorted.
Qed.

Lemma Sorted_positions (l : list ChecklistItem.t) :
  Sorted position_le l -> StronglySorted Z.le (map ChecklistItem.position l).
Proof.
  intros H. apply Sorted_StronglySorted.
  - intros a b c. apply Z.le_trans.
  - induction H as [|x l Hl IH Hhd]; simpl; constructor; [assumption|].
    destruct Hhd; simpl; constructor. assumption.
Qed.

(** ** The listing *)

Lemma fetchTasks_tasks {C : CryptoJS} (user : option User) (e : string)
  (response : QueryResult) (st : ListState) :
  truthy_email user = Some e ->
  error response = None ->
  tasks (fetchTasks user response st)
  = map (decryptTask e) (or_empty (data response)).
Proof.
  intros Hu He. unfold fetchTasks. now rewrite Hu, He.
Qed.

Lemma Forall2_map_right {A B : Type} (R : A -> B -> Prop) (f : A -> B)
  (l : list A) :
  (forall x, In x l -> R x (f x)) -> Forall2 R l (map f l).
Proof.
  induction l as [|x l IH]; simpl; intros H; constructor.
  - apply H. now left.
  - apply IH. intros y Hy. apply H. now right.
Qed.

(** The outcome of the [try] body by the outcome of its two steps. *)
Lemma decryptTask_try_Return {C : CryptoJS} (email : string) (row : FetchedTask)
  (d : DecryptedTask) :
  decryptTask_try email row = Return d <->
  columns d = task row /\
  decryptData (Task.encrypted_data (task row)) email = Return (description d) /\
  Forall2
    (fun it dc =>
       item dc = it /\
       decryptData (ChecklistItem.encrypted_data it) email = Return (text dc))
    (Array_sort by_position (or_empty (checklist_items row)))
    (checklist d).
Proof.
  unfold decryptTask_try, bind.
  destruct (decryptData (Task.encrypted_data (task row)) email) as [desc|e].
  - destruct (map_throwing (decryptChecklistItem email)
                (Array_sort by_position (or_empty (checklist_items row))))
      as [cl|e] eqn:M.
    + apply map_throwing_Return in M.
      assert (F : Forall2
                (fun it dc =>
                   item dc = it /\
                   decryptData (ChecklistItem.encrypted_data it) email
                     = Return (text dc))
                (Array_sort by_position (or_empty (checklist_items row))) cl).
      { clear -M. induction M as [|it dc l l' H Hl IH]; constructor; [|assumption].
        unfold decryptChecklistItem, bind in H.
        destruct (decryptData (ChecklistItem.encrypted_data it) email);
          [|discriminate].
        injection H as <-. now split. }
      split.
      * intros [= <-]. simpl. now repeat split.
      * intros (Hc & Hd & Hf). destruct d as [c0 d0 cl0]; simpl in *.
        injection Hd as <-. subst c0. f_equal. f_equal.
        clear -F Hf. revert cl0 Hf.
        induction F as [|it dc l l' [H1 H2] Hl IH]; intros cl0 Hf;
          inversion Hf as [|it0 dc0 l0 l0' [H3 H4] Hl0]; subst; [reflexivity|].
        f_equal; [|now apply IH].
        destruct dc as [i1 t1], dc0 as [i0 t0]; simpl in *. congruence.
    + split; [discriminate|]. intros (_ & _ & Hf). exfalso.
      assert (M' : map_throwing (decryptChecklistItem email)
                     (Array_sort by_position (or_empty (checklist_items row)))
                   = Return (checklist d)).
      { apply map_throwing_Return.
        clear -Hf. induction Hf as [|it dc l l' [H1 H2] Hl IH]; constructor;
          [|assumption].
        unfold decryptChecklistItem, bind. rewrite H2.
        destruct dc; simpl in *. now subst. }
      congruence.
  - split; [discriminate|]. intros (_ & Hd & _). discriminate.
Qed.

Lemma decryptTask_try_Throw {C : CryptoJS} (email : string) (row : FetchedTask)
  (e : JsError) :
  decryptTask_try email row = Throw e -> ~ record_decrypts email row.
Proof.
  unfold decryptTask_try, bind. intros H [[desc Hd] Hitems].
  rewrite Hd in H.
  destruct (map_throwing (decryptChecklistItem email)
              (Array_sort by_position (or_empty (checklist_items row))))
    as [cl|e0] eqn:M; [discriminate|].
  apply map_throwing_Throw in M. apply Exists_exists in M.
  destruct M as (it & Hin & e' & Hit).
  rewrite Forall_forall in Hitems.
  destruct (Hitems it) as [t Ht].
  - apply Permutation_in with (Array_sort by_position (or_empty (checklist_items row)));
      [apply Array_sort_Permutation|assumption].
  - unfold decryptChecklistItem, bind in Hit. now rewrite Ht in Hit.
Qed.

Lemma record_fails_not_decrypts {C : CryptoJS} (email : string)
  (row : FetchedTask) :
  record_fails email row -> ~ record_decrypts email row.
Proof.
  unfold record_fails, record_decrypts, fails_to_decrypt, decrypts.
  intros [Hd|Hi] [[t Ht] Hall].
  - congruence.
  - apply Exists_exists in Hi. destruct Hi as (it & Hin & Hit).
    rewrite Forall_forall in Hall. destruct (Hall it Hin) as [ti Hti].
    congruence.
Qed.

Lemma decryptTask_shown_for {C : CryptoJS} (email : string) (row : FetchedTask) :
  shown_for email row (decryptTask email row).
Proof.
  unfold shown_for, decryptTask.
  destruct (decryptTask_try email row) as [d|e] eqn:T.
  - apply decryptTask_try_Return in T. destruct T as (Hc & Hd & Hf).
    split; [assumption|]. split; [now intros _|].
    intros Hn. exfalso. apply (record_fails_not_decrypts email row Hn). split.
    + now exists (description d).
    + apply Forall_forall. intros it Hin.
      apply Permutation_in with (l' := Array_sort by_position (or_empty (checklist_items row))) in Hin;
        [|apply Permutation_sym, Array_sort_Permutation].
      clear -Hf Hin. induction Hf as [|x dc l l' [H1 H2] Hl IH]; [contradiction|].
      destruct Hin as [<-|Hin]; [now exists (text dc)|now apply IH].
  - apply decryptTask_try_Throw in T.
    split; [reflexivity|]. split; [now intros H|now intros _].
Qed.

(** Every fetched record is in one of the two cases. *)
Lemma record_decrypts_or_fails {C : CryptoJS} (email : string)
  (row : FetchedTask) :
  record_decrypts email row \/ record_fails email row.
Proof.
  unfold record_decrypts, record_fails, decrypts, fails_to_decrypt.
  destruct (decryptData (Task.encrypted_data (task row)) email) as [t|e] eqn:D.
  - induction (or_empty (checklist_items row)) as [|it l IH].
    + left. split; [now exists t|constructor].
    + destruct (decryptData (ChecklistItem.encrypted_data it) email)
        as [ti|ei] eqn:Di.
      * destruct IH as [[_ Hl]|[Hd|Hl]].
        -- left. split; [now exists t|]. constructor; [now exists ti|assumption].
        -- discriminate.
        -- right. right. now apply Exists_cons_tl.
      * right. right. apply Exists_cons_hd.
        now rewrite (decryptData_Throw _ _ _ Di) in Di.
  - right. left. now rewrite (decryptData_Throw _ _ _ D).
Qed.

(** A task saved with an empty description (the form allows it) is listed
    as the placeholder: its ciphertext is one that [decryptData] refuses. *)
Lemma empty_description_is_shown_as_failed {C : CryptoJS} (e : string)
  (k : Salt) (row : FetchedTask) :
  round_trips_under e ->
  encryptData (Some EmptyString) e k
    = Return (Task.encrypted_data (task row)) ->
  decryptTask e row = decryption_failed row.
Proof.
  intros RT He. destruct (codec_empty_text e k RT) as (c & Hc & Hd).
  rewrite He in Hc. injection Hc as <-.
  unfold decryptTask, decryptTask_try, bind. now rewrite Hd.
Qed.

(** C8.  Per-record failure isolation: when a user with an e-mail address
    fetches and the store answers with records, the list shown has one
    record per fetched record, in the same order and with the same columns.
    A record whose description and checklist entries all decrypt is shown
    with its decrypted description and checklist; a record whose description
    or any entry fails to decrypt is shown, alone, as the placeholder with
    description ["[Decryption failed]"] and an empty checklist.  Every
    fetched record is in one of the two cases. *)
Theorem per_record_failure_isolation {C : CryptoJS} (user : option User)
  (e : string) (response : QueryResult) (st : ListState) :
  truthy_email user = Some e ->
  error response = None ->
  Forall2 (shown_for e) (or_empty (data response))
          (tasks (fetchTasks user response st)) /\
  Forall (fun row => record_decrypts e row \/ record_fails e row)
         (or_empty (data response)).
Proof.
  intros Hu He. split.
  - rewrite (fetchTasks_tasks user e response st Hu He).
    apply Forall2_map_right. intros row _. apply decryptTask_shown_for.
  - apply Forall_forall. intros row _. apply record_decrypts_or_fails.
Qed.

Lemma per_record_failure_isolation_witness :
  Forall2 (shown_for (C := Ref.cryptojs) "user@example.com") sample_rows
    (tasks (fetchTasks (C := Ref.cryptojs) sample_user sample_response
              initial_state)) /\
  Forall (fun row =>
            record_decrypts (C := Ref.cryptojs) "user@example.com" row \/
            record_fails (C := Ref.cryptojs) "user@example.com" row)
         sample_rows.
Proof.
  apply (per_record_failure_isolation (C := Ref.cryptojs) sample_user
           "user@example.com" sample_response initial_state).
  - reflexivity.
  - reflexivity.
Defined.

(** The sample listing, run: the first record is readable and its checklist
    is in position order; the other two are placeholders. *)
Example sample_listing :
  map (fun shown => (Task.id (columns shown), description shown,
                     map text (checklist shown)))
      (tasks (fetchTasks (C := Ref.cryptojs) sample_user sample_response
                initial_state))
  = [ ("t1", "Write tests", ["first"; "second"; "third"]);
      ("t2", "[Decryption failed]", []);
      ("t3", "[Decryption failed]", []) ].
Proof. reflexivity. Qed.

(** C9.  Checklist ordering: in every record that [fetchTasks] shows the
    checklist entries are in ascending order of [position]; and in a record
    that decrypted, they are the entries the store returned, rearranged. *)
Theorem checklist_sorted_by_position {C : CryptoJS} (user : option User)
  (e : string) (response : QueryResult) (st : ListState) :
  truthy_email user = Some e ->
  error response = None ->
  Forall2
    (fun row shown =>
       StronglySorted Z.le (positions (checklist shown)) /\
       (forall d,
           decryptTask_try e row = Return d ->
           shown = d /\
           map item (checklist shown)
             = Array_sort by_position (or_empty (checklist_items row)) /\
           Permutation (map item (checklist shown))
                       (or_empty (checklist_items row))))
    (or_empty (data response))
    (tasks (fetchTasks user response st)).
Proof.
  intros Hu He. rewrite (fetchTasks_tasks user e response st Hu He).
  apply Forall2_map_right. intros row _. unfold decryptTask.
  destruct (decryptTask_try e row) as [d|err] eqn:T.
  - apply decryptTask_try_Return in T. destruct T as (_ & _ & Hf).
    assert (Hm : map item (checklist d)
                 = Array_sort by_position (or_empty (checklist_items row))).
    { clear -Hf. induction Hf as [|it dc l l' [H1 H2] Hl IH]; simpl;
        [reflexivity|]. now rewrite H1, IH. }
    split.
    + unfold positions. rewrite <- (map_map item ChecklistItem.position), Hm.
      apply Sorted_positions, Array_sort_by_position_Sorted.
    + intros d' [= <-]. split; [reflexivity|]. split; [assumption|].
      rewrite Hm. apply Array_sort_Permutation.
  - split; [constructor|discriminate].
Qed.

Lemma checklist_sorted_by_position_witness :
  Forall2
    (fun row shown =>
       StronglySorted Z.le (positions (checklist shown)) /\
       (forall d,
           decryptTask_try (C := Ref.cryptojs) "user@example.com" row = Return d ->
           shown = d /\
           map item (checklist shown)
             = Array_sort by_position (or_empty (checklist_items row)) /\
           Permutation (map item (checklist shown))
                       (or_empty (checklist_items row))))
    sample_rows
    (tasks (fetchTasks (C := Ref.cryptojs) sample_user sample_response
              initial_state)).
Proof.
  apply (checklist_sorted_by_position (C := Ref.cryptojs) sample_user
           "user@example.com" sample_response initial_state).
  - reflexivity.
  - reflexivity.
Defined.

(** The positions of the readable sample record: fetched as 1, 2, 0 and
    shown as 0, 1, 2. *)
Example sample_positions :
  map (fun shown => positions (checklist shown))
      (tasks (fetchTasks (C := Ref.cryptojs) sample_user sample_response
                initial_state))
  = [ [0; 1; 2]%Z; []; [] ].
Proof. reflexivity. Qed.

(** ** Status toggling *)

Lemma status_update_coupled (displayed : DecryptedTask) (now : string)
  (row : Task.t) :
  coupled (apply_update (status_update displayed now) row).
Proof.
  unfold coupled, status_update. simpl.
  destruct (Task.status (columns displayed)); simpl; split; intro H;
    try reflexivity; try discriminate; now contradiction H.
Qed.

Lemma apply_update_restores (old row : Task.t) :
  coupled old ->
  coupled (apply_update {| new_status := Task.status old;
                           new_completed_at := Task.completed_at old |} row).
Proof. unfold coupled. simpl. trivial. Qed.

Lemma stored_update_coupled (displayed : DecryptedTask) (now store_now : string)
  (row : Task.t) :
  coupled (stored_update store_now (status_update displayed now) row).
Proof. exact (status_update_coupled displayed now row). Qed.

Lemma update_eq_id_In (auth_uid : option string) (store_now : string)
  (u : StatusUpdate) (id : string) (store : list Task.t) (row : Task.t) :
  In row (update_eq_id auth_uid store_now u id store) ->
  exists old,
    In old store /\ Task.id old = Task.id row /\
    Task.user_id old = Task.user_id row /\
    (Task.id row = id -> own_task auth_uid row = true ->
     row = stored_update store_now u old) /\
    (Task.id row <> id \/ own_task auth_uid row = false -> row = old).
Proof.
  unfold update_eq_id. rewrite in_map_iff. intros (old & <- & Hin).
  exists old. split; [assumption|].
  destruct (String.eqb (Task.id old) id) eqn:E;
    destruct (own_task auth_uid old) eqn:O; cbn [andb].
  - apply String.eqb_eq in E. repeat split.
    intros [H|H]; [now contradiction H|].
    unfold own_task in *. cbn in H. congruence.
  - apply String.eqb_eq in E. repeat split. congruence.
  - apply String.eqb_neq in E. repeat split. intros H. now contradiction E.
  - apply String.eqb_neq in E. repeat split. intros H. now contradiction E.
Qed.

Lemma handleTaskStatusChange_In (u : StatusUpdate) (id : string)
  (prev : list DecryptedTask) (t : DecryptedTask) :
  In t (handleTaskStatusChange id (new_status u) (new_completed_at u) prev) ->
  exists old,
    In old prev /\ Task.id (columns old) = Task.id (columns t) /\
    (Task.id (columns t) = id -> columns t = apply_update u (columns old)) /\
    (Task.id (columns t) <> id -> t = old).
Proof.
  unfold handleTaskStatusChange. rewrite in_map_iff. intros (old & <- & Hin).
  exists old. split; [assumption|]. destruct u as [st ts]; simpl.
  destruct (String.eqb (Task.id (columns old)) id) eqn:E; simpl.
  - apply String.eqb_eq in E. repeat split; congruence.
  - apply String.eqb_neq in E. repeat split; congruence.
Qed.

Lemma update_eq_id_coupled (auth_uid : option string) (displayed : DecryptedTask)
  (now store_now id : string) (store : list Task.t) :
  Forall coupled store ->
  Forall coupled
    (update_eq_id auth_uid store_now (status_update displayed now) id store).
Proof.
  intros H. unfold update_eq_id. apply Forall_map.
  eapply Forall_impl; [|exact H]. intros row Hrow.
  destruct (String.eqb (Task.id row) id && own_task auth_uid row);
    [apply stored_update_coupled|assumption].
Qed.

Lemma handleTaskStatusChange_coupled (u : StatusUpdate) (id : string)
  (prev : list DecryptedTask) :
  (forall row, coupled (apply_update u row)) ->
  Forall (fun t => coupled (columns t)) prev ->
  Forall (fun t => coupled (columns t))
         (handleTaskStatusChange id (new_status u) (new_completed_at u) prev).
Proof.
  intros Hu H. apply Forall_forall. intros t Hin.
  apply handleTaskStatusChange_In in Hin.
  destruct Hin as (old & Hold & _ & Hsame & Hother).
  destruct (string_dec (Task.id (columns t)) id) as [E|E].
  - rewrite (Hsame E). apply Hu.
  - rewrite (Hother E). rewrite Forall_forall in H. now apply H.
Qed.

(** C10.  Completion-timestamp coupling, for both revisions of
    [toggleTaskStatus]:
    - the update it writes carries the timestamp [now] exactly when the new
      status is [completed], and [null] exactly when it is [pending];
    - after a toggle that the store accepted, every row of the task in the
      store that is the user's (the rows the store lets the user write),
      and every entry of the task in the list shown by the second revision,
      has [completed_at] set if and only if its status is [completed];
    - the coupling is kept by every call, whatever the user and the store's
      answer: a store and a list that satisfy it still do afterwards (the
      second revision reverts to the displayed task's own columns when the
      store refuses). *)
Theorem toggle_couples_status_and_timestamp (displayed : DecryptedTask)
  (now store_now : string) :
  (new_completed_at (status_update displayed now) = Some now <->
   new_status (status_update displayed now) = completed) /\
  (new_completed_at (status_update displayed now) = None <->
   new_status (status_update displayed now) = pending) /\
  (forall (user : option User) (store : list Task.t) (row : Task.t),
      truthy_email user <> None ->
      In row (fst (toggleTaskStatus user displayed now store_now None store)) ->
      Task.id row = Task.id (columns displayed) ->
      own_task (user_id_of user) row = true ->
      coupled row) /\
  (forall (user : option User) (w : World),
      truthy_email user <> None ->
      (forall row,
          In row (table (toggleTaskStatus_optimistic user displayed now
                           store_now None w)) ->
          Task.id row = Task.id (columns displayed) ->
          own_task (user_id_of user) row = true ->
          coupled row) /\
      (forall t,
          In t (shown (toggleTaskStatus_optimistic user displayed now
                         store_now None w)) ->
          Task.id (columns t) = Task.id (columns displayed) ->
          coupled (columns t))) /\
  (forall (user : option User) (store_error : option string)
          (store : list Task.t),
      Forall coupled store ->
      Forall coupled
        (fst (toggleTaskStatus user displayed now store_now store_error store))) /\
  (forall (user : option User) (store_error : option string) (w : World),
      coupled (columns displayed) ->
      Forall coupled (table w) ->
      Forall (fun t => coupled (columns t)) (shown w) ->
      Forall coupled
        (table (toggleTaskStatus_optimistic user displayed now store_now
                  store_error w)) /\
      Forall (fun t => coupled (columns t))
        (shown (toggleTaskStatus_optimistic user displayed now store_now
                  store_error w))).
Proof.
  split; [|split; [|split; [|split; [|split]]]].
  - unfold status_update. simpl.
    destruct (Task.status (columns displayed)); simpl; split; congruence.
  - unfold status_update. simpl.
    destruct (Task.status (columns displayed)); simpl; split; congruence.
  - intros user store row Hu Hin Hid Ho. unfold toggleTaskStatus in Hin.
    destruct (truthy_email user); [|now contradiction Hu]. simpl in Hin.
    apply update_eq_id_In in Hin. destruct Hin as (old & _ & _ & _ & Hsame & _).
    rewrite (Hsame Hid Ho). apply stored_update_coupled.
  - intros user w Hu. unfold toggleTaskStatus_optimistic.
    destruct (truthy_email user); [|now contradiction Hu]. simpl. split.
    + intros row Hin Hid Ho.
      apply update_eq_id_In in Hin.
      destruct Hin as (old & _ & _ & _ & Hsame & _).
      rewrite (Hsame Hid Ho). apply stored_update_coupled.
    + intros t Hin Hid.
      apply (handleTaskStatusChange_In (status_update displayed now)) in Hin.
      destruct Hin as (old & _ & _ & Hsame & _).
      rewrite (Hsame Hid). apply status_update_coupled.
  - intros user store_error store H. unfold toggleTaskStatus.
    destruct (truthy_email user); [|assumption].
    destruct store_error; simpl; [assumption|].
    now apply update_eq_id_coupled.
  - intros user store_error w Hd Ht Hs. unfold toggleTaskStatus_optimistic.
    destruct (truthy_email user); [|now split].
    destruct store_error; simpl; split.
    + assumption.
    + apply (handleTaskStatusChange_coupled
               {| new_status := Task.status (columns displayed);
                  new_completed_at := Task.completed_at (columns displayed) |}).
      * intros row. now apply apply_update_restores.
      * apply (handleTaskStatusChange_coupled (status_update displayed now));
          [|assumption].
        apply status_update_coupled.
    + now apply update_eq_id_coupled.
    + apply (handleTaskStatusChange_coupled (status_update displayed now));
        [|assumption].
      apply status_update_coupled.
Qed.

(** A pending task is toggled and the store accepts: its row and its list
    entry are coupled afterwards. *)
Lemma toggle_couples_status_and_timestamp_witness :
  (forall row,
      In row (table (toggleTaskStatus_optimistic sample_user sample_displayed
                       "2024-05-01T10:00:00.000Z" "2024-05-01T10:00:01Z" None
                       sample_world)) ->
      Task.id row = Task.id (columns sample_displayed) ->
      own_task (user_id_of sample_user) row = true ->
      coupled row) /\
  (forall t,
      In t (shown (toggleTaskStatus_optimistic sample_user sample_displayed
                     "2024-05-01T10:00:00.000Z" "2024-05-01T10:00:01Z" None
                     sample_world)) ->
      Task.id (columns t) = Task.id (columns sample_displayed) ->
      coupled (columns t)).
Proof.
  apply (proj1 (proj2 (proj2 (proj2
           (toggle_couples_status_and_timestamp sample_displayed
              "2024-05-01T10:00:00.000Z" "2024-05-01T10:00:01Z"))))).
  discriminate.
Defined.

(** The sample toggle, run in both directions. *)
Example sample_toggle :
  map (fun row => (Task.id row, Task.status row, Task.completed_at row,
                   Task.updated_at row))
      (table (toggleTaskStatus_optimistic sample_user sample_displayed
                "2024-05-01T10:00:00.000Z" "2024-05-01T10:00:01Z" None
                sample_world))
  = [ ("t1", completed, Some "2024-05-01T10:00:00.000Z", "2024-05-01T10:00:01Z");
      ("t2", pending, None, "2024-01-01T00:00:00Z") ] /\
  map (fun row => (Task.id row, Task.status row, Task.completed_at row))
      (fst (toggleTaskStatus sample_user
              {| columns :=
                   apply_update {| new_status := completed;
                                   new_completed_at := Some "2024-04-30T09:00:00.000Z" |}
                     (sample_task "t1" "ciphertext");
                 description := "Write tests";
                 checklist := [] |}
              "2024-05-01T10:00:00.000Z" "2024-05-01T10:00:01Z" None
              [apply_update {| new_status := completed;
                               new_completed_at := Some "2024-04-30T09:00:00.000Z" |}
                 (sample_task "t1" "ciphertext")]))
  = [ ("t1", pending, None) ].
Proof. split; reflexivity. Qed.

(** * Further properties of the components *)

(** ** Editing the checklist of the form *)

Lemma remove_at_length_app {A : Type} (l : list A) (x : A) :
  TaskForm.remove_at (length l) (l ++ [x])%list = l.
Proof.
  induction l as [|y l IH]; simpl; [reflexivity|]. now rewrite IH.
Qed.

Lemma remove_at_beyond {A : Type} (index : nat) (l : list A) :
  length l <= index -> TaskForm.remove_at index l = l.
Proof.
  revert index. induction l as [|y l IH]; intros [|i] H; simpl in *;
    try reflexivity; try lia.
  rewrite IH; [reflexivity|lia].
Qed.

Lemma remove_at_nth_error {A : Type} (index : nat) (l : list A) :
  index < length l ->
  S (length (TaskForm.remove_at index l)) = length l /\
  (forall j, j < index ->
             nth_error (TaskForm.remove_at index l) j = nth_error l j) /\
  (forall j, index <= j ->
             nth_error (TaskForm.remove_at index l) j = nth_error l (S j)).
Proof.
  revert index. induction l as [|y l IH]; intros [|i] H; simpl in *; try lia.
  - split; [reflexivity|]. split; [intros j Hj; lia|reflexivity].
  - destruct (IH i) as (Hlen & Hbefore & Hafter); [lia|].
    split; [now rewrite Hlen|]. split.
    + intros [|j] Hj; simpl; [reflexivity|]. apply Hbefore. lia.
    + intros [|j] Hj; simpl; [lia|]. apply Hafter. lia.
Qed.

Lemma replace_at_in_range {A : Type} (index : nat) (value : A) (l : list A) :
  index < length l ->
  exists l',
    TaskForm.replace_at index value l = Some l' /\
    length l' = length l /\
    nth_error l' index = Some value /\
    (forall j, j <> index -> nth_error l' j = nth_error l j).
Proof.
  revert index. induction l as [|y l IH]; intros [|i] H; simpl in *; try lia.
  - exists (value :: l). repeat split. intros [|j] Hj; [contradiction|reflexivity].
  - destruct (IH i) as (l' & -> & Hlen & Hnth & Hother); [lia|].
    exists (y :: l'). split; [reflexivity|]. split; [simpl; now rewrite Hlen|].
    split; [assumption|].
    intros [|j] Hj; simpl; [reflexivity|]. apply Hother. congruence.
Qed.

(** X1.  Adding and removing checklist rows in the form: removing the row
    that [handleAddChecklistItem] has just added gives the rows back;
    removing at an index the list does not have changes nothing; removing
    row [index] keeps the rows before it and moves each later row up by
    one. *)
Theorem form_rows_add_and_remove (items : list string) (index : nat) :
  TaskForm.handleRemoveChecklistItem (length items)
    (TaskForm.handleAddChecklistItem items) = items /\
  (length items <= index ->
   TaskForm.handleRemoveChecklistItem index items = items) /\
  (index < length items ->
   S (length (TaskForm.handleRemoveChecklistItem index items)) = length items /\
   (forall j, j < index ->
      nth_error (TaskForm.handleRemoveChecklistItem index items) j
      = nth_error items j) /\
   (forall j, index <= j ->
      nth_error (TaskForm.handleRemoveChecklistItem index items) j
      = nth_error items (S j))).
Proof.
  unfold TaskForm.handleRemoveChecklistItem, TaskForm.handleAddChecklistItem.
  split; [apply remove_at_length_app|]. split.
  - apply remove_at_beyond.
  - apply remove_at_nth_error.
Qed.

Lemma form_rows_add_and_remove_witness :
  TaskForm.handleRemoveChecklistItem 5 ["tag"; "announce"] = ["tag"; "announce"].
Proof.
  apply (proj1 (proj2 (form_rows_add_and_remove ["tag"; "announce"] 5))).
  simpl. lia.
Defined.

(** X2.  Typing into a checklist row of the form: for an index the list
    has, [handleChecklistItemChange] succeeds, the row holds the new value,
    the number of rows is the same and every other row is untouched. *)
Theorem form_row_change_is_local (index : nat) (value : string)
  (items : list string) :
  index < length items ->
  exists items',
    TaskForm.handleChecklistItemChange index value items = Some items' /\
    length items' = length items /\
    nth_error items' index = Some value /\
    (forall j, j <> index -> nth_error items' j = nth_error items j).
Proof.
  apply replace_at_in_range.
Qed.

Lemma form_row_change_is_local_witness :
  exists items',
    TaskForm.handleChecklistItemChange 1 "announce" ["tag"; ""; ""] = Some items' /\
    length items' = length ["tag"; ""; ""] /\
    nth_error items' 1 = Some "announce" /\
    (forall j, j <> 1 -> nth_error items' j = nth_error ["tag"; ""; ""] j).
Proof.
  apply (form_row_change_is_local 1 "announce" ["tag"; ""; ""]).
  simpl. lia.
Defined.

(** ** Sorting by position, when positions are distinct *)

Lemma Sorted_position_le_head (x : ChecklistItem.t) (l : list ChecklistItem.t) :
  Sorted position_le (x :: l) ->
  forall y, In y (x :: l) -> position_le x y.
Proof.
  intros H. apply Sorted_StronglySorted in H.
  - inversion H as [|a l0 Hl Hall]; subst. intros y [<-|Hy].
    + unfold position_le. lia.
    + rewrite Forall_forall in Hall. now apply Hall.
  - intros a b c. unfold position_le. lia.
Qed.

Lemma NoDup_map_injective {A B : Type} (f : A -> B) (l : list A) (x y : A) :
  NoDup (map f l) -> In x l -> In y l -> f x = f y -> x = y.
Proof.
  induction l as [|a l IH]; simpl; [contradiction|].
  intros H Hx Hy E. inversion H as [|b l0 Hnotin Hrest]; subst.
  destruct Hx as [<-|Hx], Hy as [<-|Hy].
  - reflexivity.
  - exfalso. apply Hnotin. rewrite E. now apply in_map.
  - exfalso. apply Hnotin. rewrite <- E. now apply in_map.
  - now apply IH.
Qed.

(** Two lists in position order with the same rows and no position twice
    are the same list. *)
Lemma sorted_by_position_unique (a b : list ChecklistItem.t) :
  Sorted position_le a ->
  Sorted position_le b ->
  Permutation a b ->
  NoDup (map ChecklistItem.position a) ->
  a = b.
Proof.
  revert b. induction a as [|x a IH]; intros b Sa Sb P N.
  - apply Permutation_nil in P. now subst.
  - destruct b as [|y b].
    + apply Permutation_sym, Permutation_nil in P. discriminate.
    + assert (Hy : In y (x :: a)).
      { apply Permutation_in with (y :: b); [now apply Permutation_sym|now left]. }
      assert (Hx : In x (y :: b)).
      { apply Permutation_in with (x :: a); [assumption|now left]. }
      pose proof (Sorted_position_le_head x a Sa y Hy) as L1.
      pose proof (Sorted_position_le_head y b Sb x Hx) as L2.
      assert (E : x = y).
      { apply (NoDup_map_injective ChecklistItem.position (x :: a));
          [assumption|now left|assumption|].
        unfold position_le in *. lia. }
      subst y. f_equal. apply IH.
      * now inversion Sa.
      * now inversion Sb.
      * now apply Permutation_cons_inv with x.
      * now inversion N.
Qed.

(** X3.  The order in which the store returns the checklist rows of a task
    does not show: when no two rows of the task have the same position, two
    answers with the same rows in different orders give the same sorted
    checklist and the same shown record. *)
Theorem listing_ignores_store_order {C : CryptoJS} (e : string) (t : Task.t)
  (rows rows' : list ChecklistItem.t) :
  Permutation rows rows' ->
  NoDup (map ChecklistItem.position rows) ->
  Array_sort by_position rows = Array_sort by_position rows' /\
  decryptTask e {| task := t; checklist_items := Some rows |}
  = decryptTask e {| task := t; checklist_items := Some rows' |}.
Proof.
  intros P N.
  assert (E : Array_sort by_position rows = Array_sort by_position rows').
  { apply sorted_by_position_unique.
    - apply Array_sort_by_position_Sorted.
    - apply Array_sort_by_position_Sorted.
    - apply perm_trans with rows; [apply Array_sort_Permutation|].
      apply perm_trans with rows'; [assumption|].
      apply Permutation_sym, Array_sort_Permutation.
    - apply (Permutation_NoDup (l := map ChecklistItem.position rows));
        [|assumption].
      apply Permutation_map, Permutation_sym, Array_sort_Permutation. }
  split; [assumption|].
  unfold decryptTask, decryptTask_try. simpl. now rewrite E.
Qed.

Lemma listing_ignores_store_order_witness :
  Array_sort by_position
    [sample_item "c2" "x" 1; sample_item "c3" "y" 2; sample_item "c1" "z" 0]
  = Array_sort by_position
      [sample_item "c1" "z" 0; sample_item "c3" "y" 2; sample_item "c2" "x" 1] /\
  decryptTask (C := Ref.cryptojs) "user@example.com"
    {| task := sample_task "t1" "q";
       checklist_items :=
         Some [sample_item "c2" "x" 1; sample_item "c3" "y" 2;
               sample_item "c1" "z" 0] |}
  = decryptTask (C := Ref.cryptojs) "user@example.com"
      {| task := sample_task "t1" "q";
         checklist_items :=
           Some [sample_item "c1" "z" 0; sample_item "c3" "y" 2;
                 sample_item "c2" "x" 1] |}.
Proof.
  apply (listing_ignores_store_order (C := Ref.cryptojs)).
  - apply perm_trans with
      [sample_item "c1" "z" 0; sample_item "c2" "x" 1; sample_item "c3" "y" 2].
    + apply Permutation_sym, (Permutation_cons_app [_; _] []), Permutation_refl.
    + apply perm_skip, perm_swap.
  - simpl. repeat constructor; simpl; intuition discriminate.
Defined.

(** ** Submitting the form *)

Lemma trim_nonblank (item : string) :
  negb (falsy (trim item)) = true -> item <> EmptyString.
Proof.
  intros H ->. discriminate.
Qed.

Lemma validItems_nonempty (st : TaskForm.State) :
  Forall (fun it => it <> EmptyString) (TaskForm.validItems st).
Proof.
  apply Forall_forall. intros it Hin. unfold TaskForm.validItems in Hin.
  apply filter_In in Hin. now apply trim_nonblank.
Qed.

(** The rows [handleSubmit] makes of the checklist, when it makes them. *)
Lemma checklist_rows_shape {C : CryptoJS} (env : TaskForm.Environment)
  (e : string) (i : nat) (items : list string) (rows : list ChecklistItem.t) :
  map_throwing_from (TaskForm.checklist_row env e) i items = Return rows ->
  length rows = length items /\
  map ChecklistItem.position rows = map Z.of_nat (seq i (length items)) /\
  Forall (fun r =>
            ChecklistItem.task_id r = TaskForm.created_id env /\
            ChecklistItem.completed r = false) rows /\
  Forall2 (fun it r =>
             exists k, encryptData (Some it) e k
                       = Return (ChecklistItem.encrypted_data r))
          items rows.
Proof.
  revert i rows. induction items as [|it items IH]; intros i rows; simpl.
  - intros [= <-]. repeat split; constructor.
  - unfold bind at 1. unfold TaskForm.checklist_row at 1. unfold bind at 1.
    destruct (encryptData (Some it) e (TaskForm.salt_for env (S i)))
      as [c|err] eqn:E; [|discriminate].
    unfold bind.
    destruct (map_throwing_from (TaskForm.checklist_row env e) (S i) items)
      as [rest|err] eqn:M; [|discriminate].
    intros [= <-]. destruct (IH (S i) rest M) as (Hlen & Hpos & Hall & Henc).
    simpl. repeat split.
    + now rewrite Hlen.
    + now rewrite Hpos.
    + constructor; [now split|assumption].
    + constructor; [|assumption]. simpl. eauto.
Qed.

(** With a library that round-trips, the rows are made and each one
    decrypts to the text typed. *)
Lemma checklist_rows_written {C : CryptoJS} (env : TaskForm.Environment)
  (e : string) (i : nat) (items : list string) :
  round_trips_under e ->
  Forall (fun it => it <> EmptyString) items ->
  exists rows,
    map_throwing_from (TaskForm.checklist_row env e) i items = Return rows /\
    Forall2 (fun it r =>
               decryptData (ChecklistItem.encrypted_data r) e = Return it)
            items rows.
Proof.
  intros RT H. revert i. induction H as [|it items Hit Hall IH]; intros i; simpl.
  - exists []. split; [reflexivity|constructor].
  - destruct (codec_round_trip it e (TaskForm.salt_for env (S i)) RT Hit)
      as (c & Hc & Hd).
    destruct (IH (S i)) as (rest & Hm & Hf).
    unfold TaskForm.checklist_row at 1. unfold bind. rewrite Hc, Hm.
    eexists. split; [reflexivity|]. constructor; [exact Hd|assumption].
Qed.

Lemma truthy_email_Some (user : option User) (e : string) :
  truthy_email user = Some e -> exists u, user = Some u.
Proof.
  destruct user as [u|]; [eauto|discriminate].
Qed.

(** X4.  What [handleSubmit] does to the form: without a signed-in e-mail
    address, or with a title that is blank once trimmed, it writes nothing
    to the store, calls nothing, and only sets the error message; whenever
    it ends without calling [onSuccess] every field the user typed is still
    in the form; when it calls [onSuccess] the form is back to its initial
    state. *)
Theorem submit_outcomes {C : CryptoJS} (env : TaskForm.Environment)
  (user : option User) (st : TaskForm.State) (db : Database) :
  (truthy_email user = None ->
   TaskForm.handleSubmit env user st db
   = (TaskForm.rejected_with "User not authenticated" st, db, false)) /\
  (truthy_email user <> None ->
   trim (TaskForm.title st) = EmptyString ->
   TaskForm.handleSubmit env user st db
   = (TaskForm.rejected_with "Title is required" st, db, false)) /\
  (snd (TaskForm.handleSubmit env user st db) = false ->
   same_input (fst (fst (TaskForm.handleSubmit env user st db))) st) /\
  (snd (TaskForm.handleSubmit env user st db) = true ->
   fst (fst (TaskForm.handleSubmit env user st db)) = TaskForm.initial).
Proof.
  unfold TaskForm.handleSubmit. split; [|split; [|split]].
  - intros H. destruct user as [u|]; [|reflexivity]. now rewrite H.
  - intros H Ht. destruct (truthy_email user) as [e|] eqn:E; [|now contradiction H].
    destruct (truthy_email_Some user e E) as [u ->]. now rewrite E, Ht.
  - destruct user as [u|]; [|intros _; now repeat split].
    destruct (truthy_email (Some u)); [|intros _; now repeat split].
    destruct (falsy (trim (TaskForm.title st))); [intros _; now repeat split|].
    destruct (encryptData _ _ _); [|intros _; now repeat split].
    destruct (TaskForm.task_error env); [intros _; now repeat split|].
    destruct (TaskForm.validItems st); [discriminate|].
    destruct (map_throwing_from _ _ _); [|intros _; now repeat split].
    destruct (TaskForm.checklist_error env); [intros _; now repeat split|discriminate].
  - destruct user as [u|]; [|discriminate].
    destruct (truthy_email (Some u)); [|discriminate].
    destruct (falsy (trim (TaskForm.title st))); [discriminate|].
    destruct (encryptData _ _ _); [|discriminate].
    destruct (TaskForm.task_error env); [discriminate|].
    destruct (TaskForm.validItems st); [reflexivity|].
    destruct (map_throwing_from _ _ _); [|discriminate].
    destruct (TaskForm.checklist_error env); [discriminate|reflexivity].
Qed.

Lemma submit_outcomes_witness :
  TaskForm.handleSubmit sample_environment sample_user TaskForm.initial
    empty_database
  = (TaskForm.rejected_with "Title is required" TaskForm.initial,
     empty_database, false).
Proof.
  apply (proj1 (proj2 (submit_outcomes sample_environment sample_user
                         TaskForm.initial empty_database))).
  - discriminate.
  - reflexivity.
Defined.

(** [handleSubmit] when it calls [onSuccess]: the task row and the checklist
    rows it has added to the store. *)
Lemma handleSubmit_success {C : CryptoJS} (env : TaskForm.Environment)
  (user : option User) (st st' : TaskForm.State) (db db' : Database) :
  TaskForm.handleSubmit env user st db = (st', db', true) ->
  exists u e c0 rows,
    user = Some u /\ truthy_email user = Some e /\
    trim (TaskForm.title st) <> EmptyString /\
    encryptData (Some (TaskForm.description st)) e (TaskForm.salt_for env 0)
      = Return c0 /\
    map_throwing_from (TaskForm.checklist_row env e) 0 (TaskForm.validItems st)
      = Return rows /\
    db' = {| db_tasks := (db_tasks db ++ [TaskForm.inserted_task env u st c0])%list;
             db_items := (db_items db ++ rows)%list |}.
Proof.
  unfold TaskForm.handleSubmit.
  destruct user as [u|]; [|discriminate].
  destruct (truthy_email (Some u)) as [e|] eqn:E; [|discriminate].
  destruct (falsy (trim (TaskForm.title st))) eqn:F; [discriminate|].
  apply falsy_false in F.
  destruct (encryptData _ _ _) as [c0|err] eqn:D; [|discriminate].
  destruct (TaskForm.task_error env); [discriminate|].
  destruct (TaskForm.validItems st) as [|it items] eqn:V.
  - intros [= <- <-]. exists u, e, c0, []. simpl.
    repeat split; try assumption; try reflexivity. now rewrite app_nil_r.
  - destruct (map_throwing_from _ _ _) as [rows|err] eqn:M; [|discriminate].
    destruct (TaskForm.checklist_error env); [discriminate|].
    intros [= <- <-]. exists u, e, c0, rows. now repeat split.
Qed.

(** X5.  What a successful [handleSubmit] stores: one new task, of the user,
    with the trimmed (and so non-empty) title, the description encrypted
    under the user's address, status [pending], no completion time, the
    form's [isToday], and a Jira link only when the field is not blank; and
    one checklist row per row of the form that is not blank, none for the
    blank ones, in the order of the form: the n-th stored row holds the
    n-th non-blank text encrypted under the user's address, has position
    n (from 0), is not completed and refers to the new task. *)
Theorem submit_stores_task_and_numbered_rows {C : CryptoJS}
  (env : TaskForm.Environment) (user : option User) (st st' : TaskForm.State)
  (db db' : Database) :
  TaskForm.handleSubmit env user st db = (st', db', true) ->
  exists u e row rows,
    user = Some u /\
    truthy_email user = Some e /\
    db_tasks db' = (db_tasks db ++ [row])%list /\
    db_items db' = (db_items db ++ rows)%list /\
    Task.user_id row = uid u /\
    Task.title row = trim (TaskForm.title st) /\
    Task.title row <> EmptyString /\
    (exists k,
        encryptData (Some (TaskForm.description st)) e k
        = Return (Task.encrypted_data row)) /\
    Task.status row = pending /\
    Task.completed_at row = None /\
    Task.is_today row = TaskForm.isToday st /\
    (Task.jira_ticket_link row = None <->
     trim (TaskForm.jiraLink st) = EmptyString) /\
    length rows = length (TaskForm.validItems st) /\
    map ChecklistItem.position rows = map Z.of_nat (seq 0 (length rows)) /\
    Forall2 (fun it r =>
               exists k,
                 encryptData (Some it) e k
                 = Return (ChecklistItem.encrypted_data r))
            (TaskForm.validItems st) rows /\
    Forall (fun r =>
              ChecklistItem.task_id r = Task.id row /\
              ChecklistItem.completed r = false) rows.
Proof.
  intros H. apply handleSubmit_success in H.
  destruct H as (u & e & c0 & rows & -> & He & Ht & Hd & Hm & ->).
  apply checklist_rows_shape in Hm. destruct Hm as (Hlen & Hpos & Hall & Henc).
  exists u, e, (TaskForm.inserted_task env u st c0), rows. simpl.
  split; [reflexivity|]. split; [exact He|].
  split; [reflexivity|]. split; [reflexivity|]. split; [reflexivity|].
  split; [reflexivity|]. split; [exact Ht|].
  split; [now exists (TaskForm.salt_for env 0)|].
  split; [reflexivity|]. split; [reflexivity|]. split; [reflexivity|].
  split; [|split; [exact Hlen|split; [now rewrite Hlen|split; assumption]]].
  destruct (falsy (trim (TaskForm.jiraLink st))) eqn:F; split.
  - intros _. now apply falsy_true.
  - reflexivity.
  - discriminate.
  - intros Hj. now rewrite Hj in F.
Qed.

Lemma submit_stores_task_and_numbered_rows_witness :
  exists u e row rows,
    sample_user = Some u /\
    truthy_email sample_user = Some e /\
    db_tasks (snd (fst (TaskForm.handleSubmit sample_environment sample_user
                          sample_form empty_database)))
    = (db_tasks empty_database ++ [row])%list /\
    db_items (snd (fst (TaskForm.handleSubmit sample_environment sample_user
                          sample_form empty_database)))
    = (db_items empty_database ++ rows)%list /\
    Task.user_id row = uid u /\
    Task.title row = trim (TaskForm.title sample_form) /\
    Task.title row <> EmptyString /\
    (exists k,
        encryptData (C := Ref.cryptojs)
          (Some (TaskForm.description sample_form)) e k
        = Return (Task.encrypted_data row)) /\
    Task.status row = pending /\
    Task.completed_at row = None /\
    Task.is_today row = TaskForm.isToday sample_form /\
    (Task.jira_ticket_link row = None <->
     trim (TaskForm.jiraLink sample_form) = EmptyString) /\
    length rows = length (TaskForm.validItems sample_form) /\
    map ChecklistItem.position rows = map Z.of_nat (seq 0 (length rows)) /\
    Forall2 (fun it r =>
               exists k,
                 encryptData (C := Ref.cryptojs) (Some it) e k
                 = Return (ChecklistItem.encrypted_data r))
            (TaskForm.validItems sample_form) rows /\
    Forall (fun r =>
              ChecklistItem.task_id r = Task.id row /\
              ChecklistItem.completed r = false) rows.
Proof.
  apply (submit_stores_task_and_numbered_rows sample_environment sample_user
           sample_form TaskForm.initial empty_database).
  reflexivity.
Defined.

(** The sample form, submitted: the title is stored trimmed, the blank Jira
    field as no link, and the blank checklist row is left out. *)
Example sample_submit :
  let db' := snd (fst (TaskForm.handleSubmit sample_environment sample_user
                         sample_form empty_database)) in
  map (fun t => (Task.title t, Task.jira_ticket_link t, Task.status t))
      (db_tasks db')
  = [("Release 1.2", None, pending)] /\
  map (fun r => (ChecklistItem.position r,
                 decryptData (C := Ref.cryptojs)
                   (ChecklistItem.encrypted_data r) "user@example.com"))
      (db_items db')
  = [(0%Z, Return "tag"); (1%Z, Return "announce")].
Proof. split; reflexivity. Qed.

(** X6.  [handleSubmit] is not atomic: when the task has been stored and the
    store then refuses the checklist rows, or the cipher fails on one of
    them, the task stays in the store without any checklist, [onSuccess] is
    not called and the form keeps what was typed (so that a second
    submission stores a second task). *)
Theorem submit_can_leave_task_without_checklist {C : CryptoJS}
  (env : TaskForm.Environment) (user : option User) (e : string)
  (st : TaskForm.State) (db : Database) (c0 : string) :
  truthy_email user = Some e ->
  trim (TaskForm.title st) <> EmptyString ->
  encryptData (Some (TaskForm.description st)) e (TaskForm.salt_for env 0)
    = Return c0 ->
  TaskForm.task_error env = None ->
  TaskForm.validItems st <> [] ->
  (TaskForm.checklist_error env <> None \/
   exists err,
     map_throwing_from (TaskForm.checklist_row env e) 0 (TaskForm.validItems st)
     = Throw err) ->
  exists u err,
    user = Some u /\
    TaskForm.handleSubmit env user st db
    = (TaskForm.failed env err st,
       {| db_tasks := (db_tasks db ++ [TaskForm.inserted_task env u st c0])%list;
          db_items := db_items db |},
       false).
Proof.
  intros He Ht Hd Hte Hv Hfail.
  destruct (truthy_email_Some user e He) as [u ->]. exists u.
  unfold TaskForm.handleSubmit. rewrite He.
  apply falsy_false in Ht. rewrite Ht, Hd, Hte.
  destruct (TaskForm.validItems st) as [|it items] eqn:V; [now contradiction Hv|].
  destruct (map_throwing_from _ _ _) as [rows|err] eqn:M.
  - destruct Hfail as [Hc|[err Herr]]; [|discriminate].
    destruct (TaskForm.checklist_error env) as [err|]; [|now contradiction Hc].
    now exists err.
  - now exists err.
Qed.

Lemma submit_can_leave_task_without_checklist_witness :
  exists u err,
    sample_user = Some u /\
    TaskForm.handleSubmit refusing_environment sample_user sample_form
      empty_database
    = (TaskForm.failed refusing_environment err sample_form,
       {| db_tasks :=
            (db_tasks empty_database
             ++ [TaskForm.inserted_task refusing_environment u sample_form
                   sample_form_ciphertext])%list;
          db_items := db_items empty_database |},
       false).
Proof.
  apply (submit_can_leave_task_without_checklist (C := Ref.cryptojs))
    with (e := "user@example.com").
  - reflexivity.
  - discriminate.
  - reflexivity.
  - reflexivity.
  - discriminate.
  - left. discriminate.
Defined.

(** The store after [handleSubmit], whatever its outcome: as before, with
    the new task, or with the new task and its checklist rows. *)
Lemma handleSubmit_store {C : CryptoJS} (env : TaskForm.Environment)
  (user : option User) (st : TaskForm.State) (db : Database) :
  snd (fst (TaskForm.handleSubmit env user st db)) = db \/
  exists u c0,
    snd (fst (TaskForm.handleSubmit env user st db))
    = {| db_tasks := (db_tasks db ++ [TaskForm.inserted_task env u st c0])%list;
         db_items := db_items db |} \/
    exists e rows,
      map_throwing_from (TaskForm.checklist_row env e) 0 (TaskForm.validItems st)
        = Return rows /\
      snd (fst (TaskForm.handleSubmit env user st db))
      = {| db_tasks := (db_tasks db ++ [TaskForm.inserted_task env u st c0])%list;
           db_items := (db_items db ++ rows)%list |}.
Proof.
  unfold TaskForm.handleSubmit.
  destruct user as [u|]; [|now left].
  destruct (truthy_email (Some u)) as [e|]; [|now left].
  destruct (falsy (trim (TaskForm.title st))); [now left|].
  destruct (encryptData _ _ _) as [c0|err]; [|now left].
  destruct (TaskForm.task_error env); [now left|].
  right. exists u, c0.
  destruct (TaskForm.validItems st) as [|it items] eqn:V; [now left|].
  destruct (map_throwing_from _ _ _) as [rows|err] eqn:M; [|now left].
  destruct (TaskForm.checklist_error env); [now left|].
  right. now exists e, rows.
Qed.

Lemma inserted_task_coupled {C : CryptoJS} (env : TaskForm.Environment)
  (u : User) (st : TaskForm.State) (c0 : string) :
  coupled (TaskForm.inserted_task env u st c0).
Proof.
  unfold coupled. simpl. split; [intros H; now contradiction H|discriminate].
Qed.

Lemma references_hold_more_tasks (tasks more : list Task.t)
  (items : list ChecklistItem.t) :
  references_hold {| db_tasks := tasks; db_items := items |} ->
  references_hold {| db_tasks := (tasks ++ more)%list; db_items := items |}.
Proof.
  unfold references_hold. simpl. intros H.
  eapply Forall_impl; [|exact H].
  intros it (t & Hin & Hid). exists t. split; [|assumption].
  apply in_or_app. now left.
Qed.

(** Two invariants of the store that [handleSubmit] keeps, whatever its
    outcome: every task has a completion time exactly when it is completed
    (a new task is pending with none), and every checklist row refers to a
    task that is in the store (the new rows refer to the new task). *)
Lemma handleSubmit_keeps_invariants {C : CryptoJS}
  (env : TaskForm.Environment) (user : option User) (st : TaskForm.State)
  (db : Database) :
  Forall coupled (db_tasks db) ->
  references_hold db ->
  Forall coupled (db_tasks (snd (fst (TaskForm.handleSubmit env user st db)))) /\
  references_hold (snd (fst (TaskForm.handleSubmit env user st db))).
Proof.
  intros Hc Hr. destruct db as [tasks items].
  destruct (handleSubmit_store env user st {| db_tasks := tasks; db_items := items |})
    as [->|(u & c0 & [->|(e & rows & Hm & ->)])]; simpl in *.
  - now split.
  - split.
    + apply Forall_app. split; [assumption|].
      constructor; [apply inserted_task_coupled|constructor].
    + now apply references_hold_more_tasks.
  - split.
    + apply Forall_app. split; [assumption|].
      constructor; [apply inserted_task_coupled|constructor].
    + unfold references_hold. simpl. apply Forall_app. split.
      * apply (references_hold_more_tasks tasks _ items Hr).
      * apply checklist_rows_shape in Hm. destruct Hm as (_ & _ & Hall & _).
        eapply Forall_impl; [|exact Hall].
        intros r [Hid _]. exists (TaskForm.inserted_task env u st c0).
        split; [|now rewrite Hid].
        apply in_or_app. right. now left.
Qed.

(** ** From the form to the listing *)

Lemma positions_seq_NoDup (i n : nat) :
  NoDup (map Z.of_nat (seq i n)).
Proof.
  revert i. induction n as [|n IH]; intros i; simpl; constructor.
  - rewrite in_map_iff. intros (x & Hx & Hin). apply in_seq in Hin. lia.
  - apply IH.
Qed.

Lemma positions_seq_Sorted (rows : list ChecklistItem.t) (i : nat) :
  map ChecklistItem.position rows = map Z.of_nat (seq i (length rows)) ->
  Sorted position_le rows.
Proof.
  revert i. induction rows as [|r rows IH]; intros i H; [constructor|].
  simpl in H. injection H as Hr Hrest.
  constructor; [now apply (IH (S i))|].
  destruct rows as [|r' rows]; constructor.
  simpl in Hrest. injection Hrest as Hr' _. unfold position_le. lia.
Qed.

(** The checklist rows of a new task, fetched in any order, decrypt to the
    texts typed, in the order typed. *)
Lemma fetched_rows_decrypt {C : CryptoJS} (e : string)
  (items : list string) (rows fetched : list ChecklistItem.t) :
  map ChecklistItem.position rows = map Z.of_nat (seq 0 (length rows)) ->
  Forall2 (fun it r => decryptData (ChecklistItem.encrypted_data r) e = Return it)
          items rows ->
  Permutation fetched rows ->
  exists cl,
    map_throwing (decryptChecklistItem e) (Array_sort by_position fetched)
      = Return cl /\
    map text cl = items /\ map item cl = rows.
Proof.
  intros Hpos Hdec P.
  assert (E : Array_sort by_position fetched = rows).
  { apply sorted_by_position_unique.
    - apply Array_sort_by_position_Sorted.
    - now apply positions_seq_Sorted with 0.
    - apply perm_trans with fetched; [apply Array_sort_Permutation|assumption].
    - apply (Permutation_NoDup (l := map ChecklistItem.position rows)).
      + apply Permutation_map, Permutation_sym.
        apply perm_trans with fetched; [apply Array_sort_Permutation|assumption].
      + rewrite Hpos. apply positions_seq_NoDup. }
  rewrite E. clear -Hdec.
  induction Hdec as [|it r items rows Hd Hrest IH].
  - exists []. now repeat split.
  - destruct IH as (cl & Hm & Ht & Hi).
    exists ({| item := r; text := it |} :: cl). simpl.
    unfold decryptChecklistItem at 1. unfold bind. rewrite Hd, Hm.
    split; [reflexivity|]. split; [now rewrite Ht|now rewrite Hi].
Qed.

(** X7.  What is typed is what is listed: when the form is submitted with a
    non-blank title and a non-empty description, the store accepts both
    writes and the library round-trips under the user's address, then
    [onSuccess] is called and, however the store orders the new checklist
    rows when it is asked for them, the listing shows the new task with the
    description typed and the non-blank checklist rows typed, in the order
    typed. *)
Theorem created_task_is_listed {C : CryptoJS} (env : TaskForm.Environment)
  (user : option User) (e : string) (st : TaskForm.State) (db : Database) :
  round_trips_under e ->
  truthy_email user = Some e ->
  trim (TaskForm.title st) <> EmptyString ->
  TaskForm.description st <> EmptyString ->
  TaskForm.task_error env = None ->
  TaskForm.checklist_error env = None ->
  exists row rows,
    TaskForm.handleSubmit env user st db
    = (TaskForm.initial,
       {| db_tasks := (db_tasks db ++ [row])%list;
          db_items := (db_items db ++ rows)%list |},
       true) /\
    forall fetched,
      Permutation fetched rows ->
      columns (decryptTask e {| task := row; checklist_items := Some fetched |})
        = row /\
      description (decryptTask e {| task := row; checklist_items := Some fetched |})
        = TaskForm.description st /\
      map text
        (checklist (decryptTask e {| task := row; checklist_items := Some fetched |}))
        = TaskForm.validItems st.
Proof.
  intros RT He Ht Hd Hte Hce.
  destruct (truthy_email_Some user e He) as [u ->].
  destruct (codec_round_trip (TaskForm.description st) e (TaskForm.salt_for env 0)
              RT Hd) as (c0 & Henc & Hdec).
  destruct (checklist_rows_written env e 0 (TaskForm.validItems st) RT
              (validItems_nonempty st)) as (rows & Hm & Hrows).
  exists (TaskForm.inserted_task env u st c0), rows. split.
  - unfold TaskForm.handleSubmit. rewrite He.
    apply falsy_false in Ht. rewrite Ht, Henc, Hte.
    destruct (TaskForm.validItems st) as [|it items] eqn:V.
    + simpl in Hm. injection Hm as <-. simpl. now rewrite app_nil_r.
    + now rewrite Hm, Hce.
  - intros fetched P.
    pose proof (checklist_rows_shape env e 0 _ rows Hm) as (Hlen & Hpos & _ & _).
    rewrite <- Hlen in Hpos.
    destruct (fetched_rows_decrypt e _ rows fetched Hpos Hrows P)
      as (cl & Hcl & Htext & _).
    unfold decryptTask, decryptTask_try. simpl. unfold bind.
    rewrite Hdec, Hcl. simpl. now repeat split.
Qed.

Lemma created_task_is_listed_witness :
  exists row rows,
    TaskForm.handleSubmit sample_environment sample_user sample_form
      empty_database
    = (TaskForm.initial,
       {| db_tasks := (db_tasks empty_database ++ [row])%list;
          db_items := (db_items empty_database ++ rows)%list |},
       true) /\
    forall fetched,
      Permutation fetched rows ->
      columns (decryptTask (C := Ref.cryptojs) "user@example.com"
                 {| task := row; checklist_items := Some fetched |})
        = row /\
      description (decryptTask (C := Ref.cryptojs) "user@example.com"
                     {| task := row; checklist_items := Some fetched |})
        = TaskForm.description sample_form /\
      map text
        (checklist (decryptTask (C := Ref.cryptojs) "user@example.com"
                      {| task := row; checklist_items := Some fetched |}))
        = TaskForm.validItems sample_form.
Proof.
  apply (created_task_is_listed (C := Ref.cryptojs) sample_environment
           sample_user "user@example.com" sample_form empty_database).
  - apply Ref_round_trips.
  - reflexivity.
  - discriminate.
  - discriminate.
  - reflexivity.
  - reflexivity.
Defined.

(** X8.  A task submitted with an empty description (the form asks for a
    title only) is stored with all its checklist rows, and is listed as
    ["[Decryption failed]"] with an empty checklist: the ciphertext of the
    empty description is one [decryptData] refuses, and the rows, readable
    as they are, are not shown. *)
Theorem empty_description_hides_the_task {C : CryptoJS}
  (env : TaskForm.Environment) (user : option User) (e : string)
  (st : TaskForm.State) (db : Database) :
  round_trips_under e ->
  truthy_email user = Some e ->
  trim (TaskForm.title st) <> EmptyString ->
  TaskForm.description st = EmptyString ->
  TaskForm.task_error env = None ->
  TaskForm.checklist_error env = None ->
  exists row rows,
    TaskForm.handleSubmit env user st db
    = (TaskForm.initial,
       {| db_tasks := (db_tasks db ++ [row])%list;
          db_items := (db_items db ++ rows)%list |},
       true) /\
    length rows = length (TaskForm.validItems st) /\
    Forall2 (fun it r => decryptData (ChecklistItem.encrypted_data r) e = Return it)
            (TaskForm.validItems st) rows /\
    forall fetched,
      decryptTask e {| task := row; checklist_items := Some fetched |}
      = {| columns := row;
           description := "[Decryption failed]";
           checklist := [] |}.
Proof.
  intros RT He Ht Hd Hte Hce.
  destruct (truthy_email_Some user e He) as [u ->].
  destruct (codec_empty_text e (TaskForm.salt_for env 0) RT)
    as (c0 & Henc & Hdec).
  destruct (checklist_rows_written env e 0 (TaskForm.validItems st) RT
              (validItems_nonempty st)) as (rows & Hm & Hrows).
  exists (TaskForm.inserted_task env u st c0), rows. split; [|split; [|split]].
  - unfold TaskForm.handleSubmit. rewrite He.
    apply falsy_false in Ht. rewrite Ht, Hd, Henc, Hte.
    destruct (TaskForm.validItems st) as [|it items] eqn:V.
    + simpl in Hm. injection Hm as <-. simpl. now rewrite app_nil_r.
    + now rewrite Hm, Hce.
  - now apply checklist_rows_shape in Hm.
  - assumption.
  - intros fetched. unfold decryptTask, decryptTask_try. simpl. unfold bind.
    now rewrite Hdec.
Qed.

Lemma empty_description_hides_the_task_witness :
  exists row rows,
    TaskForm.handleSubmit sample_environment sample_user titled_only_form
      empty_database
    = (TaskForm.initial,
       {| db_tasks := (db_tasks empty_database ++ [row])%list;
          db_items := (db_items empty_database ++ rows)%list |},
       true) /\
    length rows = length (TaskForm.validItems titled_only_form) /\
    Forall2 (fun it r =>
               decryptData (C := Ref.cryptojs) (ChecklistItem.encrypted_data r)
                 "user@example.com" = Return it)
            (TaskForm.validItems titled_only_form) rows /\
    forall fetched,
      decryptTask (C := Ref.cryptojs) "user@example.com"
        {| task := row; checklist_items := Some fetched |}
      = {| columns := row;
           description := "[Decryption failed]";
           checklist := [] |}.
Proof.
  apply (empty_description_hides_the_task (C := Ref.cryptojs) sample_environment
           sample_user "user@example.com" titled_only_form empty_database).
  - apply Ref_round_trips.
  - reflexivity.
  - discriminate.
  - reflexivity.
  - reflexivity.
  - reflexivity.
Defined.

(** ** The optimistic updates of the list *)

Lemma Forall2_map_same {A : Type} (R : A -> A -> Prop) (f : A -> A)
  (l : list A) :
  (forall x, R x (f x)) -> Forall2 R l (map f l).
Proof.
  intros H. induction l; simpl; constructor; auto.
Qed.

Lemma same_but_completed_positions (itemId : string) (old new : DecryptedTask) :
  same_but_completed itemId old new ->
  positions (checklist new) = positions (checklist old).
Proof.
  intros (_ & _ & H). unfold positions.
  induction H as [|o n lo ln (_ & (_ & _ & _ & Hp & _) & _) Hl IH];
    cbn [map]; [reflexivity|].
  now rewrite Hp, IH.
Qed.

(** X9.  An optimistic update changes only what it is for.
    [handleChecklistItemChange] leaves every record's columns and
    description as they were, keeps the checklist entries one to one and in
    order, each with its text and every column but [completed], the
    entries with another id untouched, and records of other tasks
    untouched; [handleTaskStatusChange] leaves every record's description,
    checklist and every column but [status] and [completed_at] as they
    were, and records of other tasks untouched.  Neither adds, drops or
    reorders records, and a checklist in position order stays in position
    order. *)
Theorem optimistic_updates_are_local (taskId itemId : string)
  (completed : bool) (newStatus : TaskStatus) (completedAt : option string)
  (prev : list DecryptedTask) :
  Forall2 (fun old new =>
             same_but_completed itemId old new /\
             (Task.id (columns old) <> taskId -> new = old) /\
             (checklist_in_order old -> checklist_in_order new))
          prev (handleChecklistItemChange taskId itemId completed prev) /\
  Forall2 (fun old new =>
             same_but_status old new /\
             (Task.id (columns old) <> taskId -> new = old) /\
             (checklist_in_order old -> checklist_in_order new))
          prev (handleTaskStatusChange taskId newStatus completedAt prev).
Proof.
  assert (R : forall t, same_but_completed itemId t t).
  { intros t. split; [reflexivity|]. split; [reflexivity|].
    induction (checklist t) as [|ci cl IH]; constructor; [|exact IH].
    now repeat split. }
  split.
  - unfold handleChecklistItemChange. apply Forall2_map_same. intros t.
    destruct (String.eqb (Task.id (columns t)) taskId) eqn:E.
    + assert (S : same_but_completed itemId t
                    {| columns := columns t;
                       description := description t;
                       checklist :=
                         map (fun ci =>
                                if String.eqb (ChecklistItem.id (item ci)) itemId
                                then {| item := set_completed completed (item ci);
                                        text := text ci |}
                                else ci)
                             (checklist t) |}).
      { split; [reflexivity|]. split; [reflexivity|]. cbn [checklist].
        apply Forall2_map_same. intros ci.
        destruct (String.eqb (ChecklistItem.id (item ci)) itemId) eqn:Ei.
        - apply String.eqb_eq in Ei.
          split; [reflexivity|]. split; [now repeat split|].
          intros H. now contradiction H.
        - now repeat split. }
      split; [exact S|]. split.
      * apply String.eqb_eq in E. intros H. now contradiction H.
      * unfold checklist_in_order.
        now rewrite (same_but_completed_positions _ _ _ S).
    + split; [apply R|]. split; trivial.
  - unfold handleTaskStatusChange. apply Forall2_map_same. intros t.
    destruct (String.eqb (Task.id (columns t)) taskId) eqn:E.
    + split; [now repeat split|]. split; [|trivial].
      apply String.eqb_eq in E. intros H. now contradiction H.
    + split; [now repeat split|]. split; trivial.
Qed.

Lemma handleChecklistItemChange_revert (taskId itemId : string)
  (current : bool) (prev : list DecryptedTask) :
  shows_completed taskId itemId current prev ->
  handleChecklistItemChange taskId itemId current
    (handleChecklistItemChange taskId itemId (negb current) prev) = prev.
Proof.
  unfold handleChecklistItemChange, shows_completed. intros H.
  rewrite map_map. rewrite <- (map_id prev) at 2.
  apply map_ext_in. intros t Ht.
  destruct (String.eqb (Task.id (columns t)) taskId) eqn:E; simpl.
  - rewrite E. simpl. apply String.eqb_eq in E.
    destruct t as [c d cl]. simpl in *. f_equal.
    rewrite map_map. rewrite <- (map_id cl) at 2.
    apply map_ext_in. intros ci Hci.
    destruct (String.eqb (ChecklistItem.id (item ci)) itemId) eqn:Ei; simpl.
    + rewrite Ei. simpl. apply String.eqb_eq in Ei.
      pose proof (H _ ci Ht E Hci Ei) as Hc.
      destruct ci as [it tx]. destruct it. simpl in *. now subst.
    + now rewrite Ei.
  - now rewrite E.
Qed.

Lemma handleTaskStatusChange_revert (displayed : DecryptedTask)
  (s : TaskStatus) (ts : option string) (prev : list DecryptedTask) :
  shows_status_of displayed prev ->
  handleTaskStatusChange (Task.id (columns displayed))
    (Task.status (columns displayed)) (Task.completed_at (columns displayed))
    (handleTaskStatusChange (Task.id (columns displayed)) s ts prev)
  = prev.
Proof.
  unfold handleTaskStatusChange, shows_status_of. intros H.
  rewrite map_map. rewrite <- (map_id prev) at 2.
  apply map_ext_in. intros t Ht.
  destruct (String.eqb (Task.id (columns t)) (Task.id (columns displayed))) eqn:E;
    simpl.
  - rewrite E. apply String.eqb_eq in E.
    destruct (H t Ht E) as [Hs Hc].
    destruct t as [c d cl]. simpl in *. f_equal.
    rewrite <- Hs, <- Hc. now destruct c.
  - now rewrite E.
Qed.

(** X10.  A refused toggle leaves no trace: in the second revision, when the
    store refuses the update and the list shows for the task (or checklist
    row) the value the component was displaying, the list after the
    optimistic update and its reversal is exactly the list before, and the
    store is unchanged.  This holds for [toggleTaskStatus] and for
    [toggleChecklistItem]. *)
Theorem refused_toggle_restores_the_list (user : option User)
  (displayed : DecryptedTask) (now store_now refusal itemId : string)
  (current : bool) :
  (forall w : World,
      shows_status_of displayed (shown w) ->
      toggleTaskStatus_optimistic user displayed now store_now (Some refusal) w
      = w) /\
  (forall app : App,
      shows_completed (Task.id (columns displayed)) itemId current
        (app_shown app) ->
      toggleChecklistItem_optimistic user displayed itemId current store_now
        (Some refusal) app = app).
Proof.
  split.
  - intros w H. unfold toggleTaskStatus_optimistic.
    destruct (truthy_email user); [|reflexivity].
    cbv zeta. rewrite handleTaskStatusChange_revert by assumption.
    now destruct w.
  - intros app H. unfold toggleChecklistItem_optimistic.
    destruct (truthy_email user); [|reflexivity].
    cbv zeta. rewrite handleChecklistItemChange_revert by assumption.
    now destruct app.
Qed.

Lemma refused_toggle_restores_the_list_witness :
  toggleChecklistItem_optimistic sample_user sample_displayed "c2" true
    "2024-05-01T10:00:00.000Z" (Some "network") sample_app = sample_app.
Proof.
  apply (proj2 (refused_toggle_restores_the_list sample_user sample_displayed
                  "2024-05-01T09:59:59.000Z" "2024-05-01T10:00:00.000Z"
                  "network" "c2" true)).
  intros t ci [<-|[]] _ [<-|[<-|[]]]; simpl; intros E;
    [discriminate|reflexivity].
Defined.

Lemma update_completed_eq_id_In (auth_uid : option string) (now : string)
  (completed : bool) (itemId : string) (db : Database) (r : ChecklistItem.t) :
  In r (db_items (update_completed_eq_id auth_uid now completed itemId db)) ->
  exists old,
    In old (db_items db) /\
    ChecklistItem.id old = ChecklistItem.id r /\
    ChecklistItem.task_id old = ChecklistItem.task_id r /\
    (ChecklistItem.id r = itemId ->
     own_item auth_uid (db_tasks db) r = true ->
     r = stored_completed now completed old) /\
    (ChecklistItem.id r <> itemId \/ own_item auth_uid (db_tasks db) r = false ->
     r = old).
Proof.
  unfold update_completed_eq_id. simpl. rewrite in_map_iff.
  intros (old & <- & Hin). exists old. split; [assumption|].
  destruct (String.eqb (ChecklistItem.id old) itemId) eqn:E;
    destruct (own_item auth_uid (db_tasks db) old) eqn:O; simpl.
  - apply String.eqb_eq in E. repeat split. intros [H|H]; [congruence|].
    unfold own_item in *. simpl in H. congruence.
  - apply String.eqb_eq in E. repeat split. congruence.
  - apply String.eqb_neq in E. repeat split. congruence.
  - apply String.eqb_neq in E. repeat split. congruence.
Qed.

Lemma handleChecklistItemChange_In (taskId itemId : string) (completed : bool)
  (prev : list DecryptedTask) (t : DecryptedTask) (ci : DecryptedChecklistItem) :
  In t (handleChecklistItemChange taskId itemId completed prev) ->
  Task.id (columns t) = taskId ->
  In ci (checklist t) ->
  ChecklistItem.id (item ci) = itemId ->
  ChecklistItem.completed (item ci) = completed.
Proof.
  unfold handleChecklistItemChange. rewrite in_map_iff.
  intros (old & <- & Hin) Hid.
  destruct (String.eqb (Task.id (columns old)) taskId) eqn:E; simpl in *.
  - rewrite in_map_iff. intros (oc & <- & Hoc).
    destruct (String.eqb (ChecklistItem.id (item oc)) itemId) eqn:Ei; simpl.
    + reflexivity.
    + apply String.eqb_neq in Ei. intros H. now contradiction Ei.
  - apply String.eqb_neq in E. now contradiction E.
Qed.

(** X11.  After a toggle that the store accepted, store and list agree on
    what was toggled.  For [toggleTaskStatus] (second revision) the rows of
    the task that are the user's carry the new status, and the list entries
    of the task carry the same status and the same completion time; rows of
    the task that are not the user's, and rows with other ids, are as
    before.  For [toggleChecklistItem] (both revisions) the rows of the
    checklist item that are the user's carry the negated flag and the time
    of the write, and in the second revision so do its entries under the
    task in the list (the flag, not the time); the tasks table is as
    before, and so is every row with another id or of another user. *)
Theorem accepted_toggle_agrees (user : option User) (displayed : DecryptedTask)
  (now store_now itemId : string) (current : bool) :
  truthy_email user <> None ->
  (forall (w : World) (row : Task.t),
      In row (table (toggleTaskStatus_optimistic user displayed now store_now
                       None w)) ->
      (Task.id row = Task.id (columns displayed) ->
       own_task (user_id_of user) row = true ->
       Task.status row = newStatus (Task.status (columns displayed)) /\
       Task.updated_at row = store_now /\
       forall t,
         In t (shown (toggleTaskStatus_optimistic user displayed now store_now
                        None w)) ->
         Task.id (columns t) = Task.id (columns displayed) ->
         Task.status (columns t) = Task.status row /\
         Task.completed_at (columns t) = Task.completed_at row) /\
      (Task.id row <> Task.id (columns displayed) \/
       own_task (user_id_of user) row = false ->
       In row (table w))) /\
  (forall db : Database,
      db_tasks (fst (toggleChecklistItem user itemId current store_now None db))
      = db_tasks db /\
      forall r,
        In r (db_items (fst (toggleChecklistItem user itemId current store_now
                               None db))) ->
        (ChecklistItem.id r = itemId ->
         own_item (user_id_of user) (db_tasks db) r = true ->
         ChecklistItem.completed r = negb current /\
         ChecklistItem.updated_at r = store_now) /\
        (ChecklistItem.id r <> itemId \/
         own_item (user_id_of user) (db_tasks db) r = false ->
         In r (db_items db))) /\
  (forall app : App,
      app_db (toggleChecklistItem_optimistic user displayed itemId current
                store_now None app)
      = fst (toggleChecklistItem user itemId current store_now None
               (app_db app)) /\
      (forall t ci,
          In t (app_shown (toggleChecklistItem_optimistic user displayed itemId
                             current store_now None app)) ->
          Task.id (columns t) = Task.id (columns displayed) ->
          In ci (checklist t) ->
          ChecklistItem.id (item ci) = itemId ->
          ChecklistItem.completed (item ci) = negb current)).
Proof.
  intros Hu. split; [|split].
  - intros w row. unfold toggleTaskStatus_optimistic.
    destruct (truthy_email user); [|now contradiction Hu]. simpl.
    intros Hrow.
    apply update_eq_id_In in Hrow.
    destruct Hrow as (old & Hold & _ & _ & Hsame & Hother). split.
    + intros Hidr Ho. rewrite (Hsame Hidr Ho).
      split; [reflexivity|]. split; [reflexivity|].
      intros t Ht Hidt.
      apply (handleTaskStatusChange_In (status_update displayed now)) in Ht.
      destruct Ht as (old' & _ & _ & Hsame' & _).
      rewrite (Hsame' Hidt). now split.
    + intros H. now rewrite (Hother H).
  - intros db. unfold toggleChecklistItem.
    destruct (truthy_email user); [|now contradiction Hu]. simpl.
    split; [reflexivity|]. intros r Hr.
    apply update_completed_eq_id_In in Hr.
    destruct Hr as (old & Hold & _ & _ & Hsame & Hother). split.
    + intros E O. rewrite (Hsame E O). now split.
    + intros E. now rewrite (Hother E).
  - intros app. unfold toggleChecklistItem_optimistic, toggleChecklistItem.
    destruct (truthy_email user); [|now contradiction Hu]. simpl.
    split; [reflexivity|].
    intros t ci. apply handleChecklistItemChange_In.
Qed.

Lemma accepted_toggle_agrees_witness :
  ChecklistItem.completed
    (stored_completed "2024-05-01T10:00:00.000Z" true (sample_item "c1" "x" 0))
  = negb false /\
  ChecklistItem.updated_at
    (stored_completed "2024-05-01T10:00:00.000Z" true (sample_item "c1" "x" 0))
  = "2024-05-01T10:00:00.000Z".
Proof.
  apply (proj1
           (proj2 (proj1 (proj2 (accepted_toggle_agrees sample_user
                                   sample_displayed "2024-05-01T09:59:59.000Z"
                                   "2024-05-01T10:00:00.000Z" "c1" false
                                   ltac:(discriminate)))
                    shared_database)
              (stored_completed "2024-05-01T10:00:00.000Z" true
                 (sample_item "c1" "x" 0))
              ltac:(left; reflexivity))).
  - reflexivity.
  - reflexivity.
Defined.

(** The sample store after the first user ticks the row [c1]: their row is
    done and stamped, the other user's row with the same id is not. *)
Example sample_tick :
  map (fun r => (ChecklistItem.task_id r, ChecklistItem.completed r,
                 ChecklistItem.updated_at r))
      (db_items (fst (toggleChecklistItem sample_user "c1" false
                        "2024-05-01T10:00:00.000Z" None shared_database)))
  = [("t1", true, "2024-05-01T10:00:00.000Z");
     ("t1", true, "2024-01-01T00:00:00Z");
     ("t7", false, "2024-01-01T00:00:00Z")].
Proof. reflexivity. Qed.

(** ** The progress count *)

Lemma completed_count_after_toggle (itemId : string) (current : bool)
  (cl : list DecryptedChecklistItem) (ci : DecryptedChecklistItem) :
  NoDup (map (fun d => ChecklistItem.id (item d)) cl) ->
  In ci cl ->
  ChecklistItem.id (item ci) = itemId ->
  ChecklistItem.completed (item ci) = current ->
  length (filter (fun d => ChecklistItem.completed (item d))
            (map (fun d =>
                    if String.eqb (ChecklistItem.id (item d)) itemId
                    then {| item := set_completed (negb current) (item d);
                            text := text d |}
                    else d) cl))
  + (if current then 1 else 0)
  = length (filter (fun d => ChecklistItem.completed (item d)) cl)
    + (if current then 0 else 1).
Proof.
  induction cl as [|d cl IH]; intros N Hin Hid Hc; [contradiction|].
  inversion N as [|x l Hnotin Hrest]; subst x l. simpl.
  destruct (String.eqb (ChecklistItem.id (item d)) itemId) eqn:E.
  - apply String.eqb_eq in E.
    assert (ci = d).
    { destruct Hin as [->|Hin]; [reflexivity|]. exfalso. apply Hnotin.
      rewrite E, <- Hid.
      now apply (in_map (fun d => ChecklistItem.id (item d))). }
    subst ci.
    assert (Hmap : map (fun d0 =>
                          if String.eqb (ChecklistItem.id (item d0)) itemId
                          then {| item := set_completed (negb current) (item d0);
                                  text := text d0 |}
                          else d0) cl = cl).
    { rewrite <- (map_id cl) at 2. apply map_ext_in. intros d0 Hd0.
      destruct (String.eqb (ChecklistItem.id (item d0)) itemId) eqn:E0;
        [|reflexivity].
      exfalso. apply String.eqb_eq in E0. apply Hnotin. rewrite E, <- E0.
      now apply (in_map (fun d => ChecklistItem.id (item d))). }
    rewrite Hmap. simpl. rewrite Hc. destruct current; simpl; lia.
  - apply String.eqb_neq in E.
    destruct Hin as [->|Hin]; [now contradiction E|].
    specialize (IH Hrest Hin Hid Hc).
    destruct (ChecklistItem.completed (item d)); simpl; lia.
Qed.

(** X12.  Ticking a checklist row moves the progress count by exactly one:
    when the rows of a task have distinct ids, the optimistic update for a
    row that was not done adds one to [completedCount], for a row that was
    done takes one off, and [totalCount] stays. *)
Theorem toggle_moves_progress_by_one (taskId itemId : string) (current : bool)
  (prev : list DecryptedTask) (n : nat) (t : DecryptedTask)
  (ci : DecryptedChecklistItem) :
  nth_error prev n = Some t ->
  Task.id (columns t) = taskId ->
  NoDup (map (fun d => ChecklistItem.id (item d)) (checklist t)) ->
  In ci (checklist t) ->
  ChecklistItem.id (item ci) = itemId ->
  ChecklistItem.completed (item ci) = current ->
  exists t',
    nth_error (handleChecklistItemChange taskId itemId (negb current) prev) n
      = Some t' /\
    totalCount t' = totalCount t /\
    completedCount t' + (if current then 1 else 0)
    = completedCount t + (if current then 0 else 1).
Proof.
  intros Hn Hid N Hin Hci Hc. unfold handleChecklistItemChange.
  rewrite nth_error_map, Hn. simpl.
  apply String.eqb_eq in Hid. rewrite Hid.
  eexists. split; [reflexivity|].
  unfold totalCount, completedCount. simpl. split.
  - apply length_map.
  - now apply completed_count_after_toggle with ci.
Qed.

Lemma toggle_moves_progress_by_one_witness :
  exists t',
    nth_error (handleChecklistItemChange "t1" "c1" (negb false) sample_shown) 0
      = Some t' /\
    totalCount t' = totalCount sample_listed /\
    completedCount t' + 0 = completedCount sample_listed + 1.
Proof.
  apply (toggle_moves_progress_by_one "t1" "c1" false sample_shown 0
           sample_listed
           {| item := sample_item "c1" "x" 0; text := "first" |}).
  - reflexivity.
  - reflexivity.
  - simpl. repeat constructor; simpl; intuition discriminate.
  - now left.
  - reflexivity.
  - reflexivity.
Defined.

(** ** Deleting a task *)

Lemma delete_eq_id_tasks (auth_uid : option string) (id : string)
  (db : Database) (t : Task.t) :
  In t (db_tasks (delete_eq_id auth_uid id db)) <->
  In t (db_tasks db) /\ ~ (Task.id t = id /\ own_task auth_uid t = true).
Proof.
  unfold delete_eq_id, deleted_by. simpl. rewrite filter_In.
  rewrite Bool.negb_true_iff, Bool.andb_false_iff, String.eqb_neq.
  destruct (own_task auth_uid t); intuition congruence.
Qed.

Lemma delete_eq_id_items (auth_uid : option string) (id : string)
  (db : Database) (r : ChecklistItem.t) :
  In r (db_items (delete_eq_id auth_uid id db)) <->
  In r (db_items db) /\
  ~ (ChecklistItem.task_id r = id /\
     exists t, In t (db_tasks db) /\ Task.id t = id /\
               own_task auth_uid t = true).
Proof.
  unfold delete_eq_id, deleted_by. simpl. rewrite filter_In.
  rewrite Bool.negb_true_iff. split.
  - intros [Hin Hex]. split; [assumption|]. intros (Hid & t & Ht & Htid & Ho).
    apply Bool.not_true_iff_false in Hex. apply Hex.
    apply existsb_exists. exists t. split; [assumption|].
    rewrite Ho, Htid, Hid. rewrite !String.eqb_refl. reflexivity.
  - intros [Hin Hno]. split; [assumption|].
    apply Bool.not_true_iff_false. intros Hex.
    apply existsb_exists in Hex. destruct Hex as (t & Ht & Hb).
    apply Bool.andb_true_iff in Hb. destruct Hb as [Hd Hr].
    apply Bool.andb_true_iff in Hd. destruct Hd as [Hid Ho].
    apply String.eqb_eq in Hid, Hr. apply Hno. split; [congruence|].
    now exists t.
Qed.

Lemma delete_eq_id_references (auth_uid : option string) (id : string)
  (db : Database) :
  references_hold db -> references_hold (delete_eq_id auth_uid id db).
Proof.
  unfold references_hold. rewrite !Forall_forall. intros H r Hr.
  apply delete_eq_id_items in Hr. destruct Hr as [Hin Hno].
  destruct (H r Hin) as (t & Ht & Hid). exists t. split; [|assumption].
  apply delete_eq_id_tasks. split; [assumption|].
  intros [Htid Ho]. apply Hno. split; [congruence|]. now exists t.
Qed.

(** X13.  [deleteTask] does nothing unless the user confirms and the store
    accepts; when it does, exactly the tasks with the displayed id that are
    the user's leave the tasks table, and exactly the checklist rows that
    refer to such a task leave theirs (the schema's cascade), so that no row
    is left referring to a task that is gone; every other row stays, and
    the completion coupling of the remaining tasks is untouched. *)
Theorem delete_removes_task_and_its_checklist (auth_uid : option string)
  (displayed : DecryptedTask) (db : Database) :
  (forall store_error,
      deleteTask auth_uid false displayed store_error db = (db, false)) /\
  (forall refusal,
      deleteTask auth_uid true displayed (Some refusal) db = (db, false)) /\
  (forall t,
      In t (db_tasks (fst (deleteTask auth_uid true displayed None db))) <->
      In t (db_tasks db) /\
      ~ (Task.id t = Task.id (columns displayed) /\
         own_task auth_uid t = true)) /\
  (forall r,
      In r (db_items (fst (deleteTask auth_uid true displayed None db))) <->
      In r (db_items db) /\
      ~ (ChecklistItem.task_id r = Task.id (columns displayed) /\
         exists t, In t (db_tasks db) /\
                   Task.id t = Task.id (columns displayed) /\
                   own_task auth_uid t = true)) /\
  (references_hold db ->
   references_hold (fst (deleteTask auth_uid true displayed None db))) /\
  (Forall coupled (db_tasks db) ->
   Forall coupled
     (db_tasks (fst (deleteTask auth_uid true displayed None db)))).
Proof.
  split; [reflexivity|]. split; [reflexivity|].
  split; [intros t; apply delete_eq_id_tasks|].
  split; [intros r; apply delete_eq_id_items|]. split.
  - apply delete_eq_id_references.
  - intros H. rewrite Forall_forall in *. intros t Ht.
    apply delete_eq_id_tasks in Ht. apply H. tauto.
Qed.

Lemma delete_removes_task_and_its_checklist_witness :
  references_hold
    (fst (deleteTask (Some "u1") true sample_displayed None shared_database)).
Proof.
  apply (proj1 (proj2 (proj2 (proj2 (proj2
           (delete_removes_task_and_its_checklist (Some "u1") sample_displayed
              shared_database)))))).
  repeat constructor;
    [exists (sample_task "t1" "ciphertext")
    |exists (sample_task "t1" "ciphertext")
    |exists foreign_task];
    (split; [simpl; tauto|reflexivity]).
Defined.

(** The sample store after the first user deletes the sample task: their
    task and its two rows are gone, the other user's task and row stay. *)
Example sample_delete :
  deleteTask (Some "u1") true sample_displayed None shared_database
  = ({| db_tasks := [foreign_task]; db_items := [foreign_item] |}, true).
Proof. reflexivity. Qed.

(** ** What a user cannot reach *)

(** X14.  The rows of other users are out of reach.  Whatever the answer of
    the store, [toggleChecklistItem] leaves every checklist row that is not
    the signed-in user's where and as it was, and [deleteTask] leaves every
    task and every checklist row that is not the session's user's in the
    store, even when the id that is written or deleted is theirs. *)
Theorem rows_of_others_are_out_of_reach (db : Database) :
  (forall (user : option User) (itemId now : string) (current : bool)
          (store_error : option string) (n : nat) (r : ChecklistItem.t),
      nth_error (db_items db) n = Some r ->
      own_item (user_id_of user) (db_tasks db) r = false ->
      nth_error
        (db_items (fst (toggleChecklistItem user itemId current now store_error
                          db))) n
      = Some r) /\
  (forall (auth_uid : option string) (confirmed : bool)
          (displayed : DecryptedTask) (store_error : option string),
      (forall t,
          In t (db_tasks db) -> own_task auth_uid t = false ->
          In t (db_tasks (fst (deleteTask auth_uid confirmed displayed
                                 store_error db)))) /\
      (forall r,
          In r (db_items db) -> own_item auth_uid (db_tasks db) r = false ->
          In r (db_items (fst (deleteTask auth_uid confirmed displayed
                                 store_error db))))).
Proof.
  split.
  - intros user itemId now current store_error n r Hn Ho.
    unfold toggleChecklistItem.
    destruct (truthy_email user); [|exact Hn].
    destruct store_error; [exact Hn|]. simpl.
    rewrite nth_error_map, Hn. simpl. rewrite Ho.
    now rewrite Bool.andb_false_r.
  - intros auth_uid confirmed displayed store_error. unfold deleteTask.
    destruct confirmed; [|now split]. destruct store_error; [now split|].
    simpl fst. split.
    + intros t Ht Ho. apply delete_eq_id_tasks. split; [assumption|].
      intros [_ H]. congruence.
    + intros r Hr Ho. apply delete_eq_id_items. split; [assumption|].
      intros (Hid & t & Ht & Htid & Hot).
      unfold own_item in Ho. apply Bool.not_true_iff_false in Ho. apply Ho.
      apply existsb_exists. exists t. split; [assumption|].
      rewrite Hot, Htid, Hid. now rewrite String.eqb_refl.
Qed.

Lemma rows_of_others_are_out_of_reach_witness :
  nth_error
    (db_items (fst (toggleChecklistItem sample_user "c1" false
                      "2024-05-01T10:00:00.000Z" None shared_database))) 2
  = Some foreign_item.
Proof.
  apply (proj1 (rows_of_others_are_out_of_reach shared_database) sample_user
           "c1" "2024-05-01T10:00:00.000Z" false None 2 foreign_item).
  - reflexivity.
  - reflexivity.
Defined.

(** ** What the object helpers lose, and what they throw *)

Lemma has_no_JSON_form_undefined (hook : bool) (v : JsValue) :
  has_no_JSON_form v = true -> SerializeJSONProperty hook v = Return None.
Proof.
  destruct hook, v; cbn; try discriminate; reflexivity.
Qed.

Lemma survivor_array (l : list JsValue) :
  survivor (JsArray l)
  = JsArray (map (fun e => if has_no_JSON_form e then JsNull else survivor e) l).
Proof. reflexivity. Qed.

Lemma survivor_object (ps : list (string * JsValue)) :
  survivor (JsObject ps) = JsObject (surviving_properties ps).
Proof. reflexivity. Qed.

Lemma has_no_JSON_form_survivor (v : JsValue) :
  has_no_JSON_form (survivor v) = has_no_JSON_form v.
Proof. destruct v; reflexivity. Qed.

(** No function survives in an object, so no [toJSON] method does. *)
Lemma toJSON_method_surviving (ps : list (string * JsValue)) :
  toJSON_method (surviving_properties ps) = None.
Proof.
  induction ps as [|[key e] rest IH]; cbn [surviving_properties];
    [reflexivity|].
  destruct (has_no_JSON_form e) eqn:N; [exact IH|].
  cbn [toJSON_method]. destruct (String.eqb key "toJSON"); [|exact IH].
  destruct e; try discriminate; reflexivity.
Qed.

Lemma serialize_elements_survivor (l : list JsValue) :
  Forall (fun v =>
            SerializeJSONProperty true (survivor v)
            = SerializeJSONProperty true v) l ->
  serialize_elements
    (map (fun e => if has_no_JSON_form e then JsNull else survivor e) l)
  = serialize_elements l.
Proof.
  intros H. induction H as [|v l Hv Hl IH]; cbn [map serialize_elements];
    [reflexivity|].
  destruct (has_no_JSON_form v) eqn:N.
  - rewrite (has_no_JSON_form_undefined true v N). cbn [bind SerializeJSONProperty].
    now rewrite IH.
  - now rewrite Hv, IH.
Qed.

Lemma serialize_properties_survivor (ps : list (string * JsValue)) :
  Forall (fun kv =>
            SerializeJSONProperty true (survivor (snd kv))
            = SerializeJSONProperty true (snd kv)) ps ->
  serialize_properties (surviving_properties ps) = serialize_properties ps.
Proof.
  intros H.
  induction H as [|[key v] l Hv Hl IH];
    cbn [surviving_properties serialize_properties snd] in *; [reflexivity|].
  destruct (has_no_JSON_form v) eqn:N.
  - rewrite (has_no_JSON_form_undefined true v N). cbn [bind]. rewrite IH.
    unfold bind. now destruct (serialize_properties l).
  - cbn [serialize_properties]. now rewrite Hv, IH.
Qed.

(** On a value without [toJSON] methods, [JSON.stringify] writes the value
    and its survivor alike. *)
Lemma JSON_stringify_survivor (v : JsValue) :
  calls_no_toJSON v = true ->
  JSON_stringify (survivor v) = JSON_stringify v.
Proof.
  unfold JSON_stringify.
  induction v as [| |b|n|s|n| |e|r IHr|l IH|ps IH|] using JsValue_nested_ind;
    intros N; try reflexivity.
  - cbn [calls_no_toJSON] in N.
    rewrite survivor_array, !SerializeJSONProperty_array.
    unfold SerializeJSONArray.
    now rewrite (serialize_elements_survivor l (Forall_forallb_impl _ _ _ IH N)).
  - cbn [calls_no_toJSON] in N.
    rewrite survivor_object, !SerializeJSONProperty_toJSON.
    rewrite toJSON_method_surviving.
    destruct (toJSON_method ps); [discriminate|].
    unfold SerializeJSONObject.
    pose proof (Forall_forallb_impl _ (fun kv => calls_no_toJSON (snd kv))
                  _ IH N) as H.
    cbv beta in H. now rewrite (serialize_properties_survivor ps H).
Qed.

(** Nothing is left to drop in a survivor. *)
Lemma survivor_idempotent (v : JsValue) : survivor (survivor v) = survivor v.
Proof.
  induction v as [| |b|n|s|n| |e|r IHr|l IH|ps IH|] using JsValue_nested_ind;
    try reflexivity.
  - rewrite !survivor_array. f_equal. rewrite map_map.
    induction IH as [|x l Hx Hl IHl]; cbn [map]; [reflexivity|].
    rewrite IHl. f_equal.
    destruct (has_no_JSON_form x) eqn:N; [reflexivity|].
    now rewrite has_no_JSON_form_survivor, N, Hx.
  - rewrite !survivor_object. f_equal.
    induction IH as [|[key x] l Hx Hl IHl]; cbn [surviving_properties snd] in *;
      [reflexivity|].
    destruct (has_no_JSON_form x) eqn:N; [exact IHl|].
    cbn [surviving_properties].
    now rewrite has_no_JSON_form_survivor, N, Hx, IHl.
Qed.

(** No member without a JSON form is left in a survivor. *)
Lemma survivor_has_all_members (v : JsValue) :
  has_member_without_JSON_form (survivor v) = false.
Proof.
  induction v as [| |b|n|s|n| |e|r IHr|l IH|ps IH|] using JsValue_nested_ind;
    try reflexivity.
  - rewrite survivor_array. cbn [has_member_without_JSON_form].
    induction IH as [|x l Hx Hl IHl]; cbn [map existsb]; [reflexivity|].
    rewrite IHl, Bool.orb_false_r.
    destruct (has_no_JSON_form x) eqn:N; [reflexivity|].
    now rewrite has_no_JSON_form_survivor, N, Hx.
  - rewrite survivor_object. cbn [has_member_without_JSON_form].
    induction IH as [|[key x] l Hx Hl IHl]; cbn [surviving_properties snd] in *;
      [reflexivity|].
    destruct (has_no_JSON_form x) eqn:N; [exact IHl|].
    cbn [existsb snd].
    now rewrite has_no_JSON_form_survivor, N, Hx, IHl.
Qed.

(** X15.  What [encryptObject] loses without a word: members that are
    [undefined], functions or symbols.  A value none of whose objects has a
    [toJSON] method is serialized and encrypted exactly as the value
    without them (dropped from objects, [null] in arrays, at every depth);
    what is left has no such member at any depth, so there is nothing more
    to drop from it. *)
Theorem object_helpers_drop_members_silently {C : CryptoJS} (obj : JsValue)
  (p : string) (k : Salt) :
  calls_no_toJSON obj = true ->
  encryptObject obj p k = encryptObject (survivor obj) p k /\
  JSON_stringify obj = JSON_stringify (survivor obj) /\
  has_member_without_JSON_form (survivor obj) = false /\
  survivor (survivor obj) = survivor obj.
Proof.
  intros N. split; [|split; [|split]].
  - rewrite !encryptObject_unfold. now rewrite JSON_stringify_survivor.
  - now rewrite JSON_stringify_survivor.
  - apply survivor_has_all_members.
  - apply survivor_idempotent.
Qed.

Lemma object_helpers_drop_members_silently_witness :
  encryptObject (C := Ref.cryptojs) object_with_methods "user@example.com" "k"%char
  = encryptObject (C := Ref.cryptojs) (survivor object_with_methods)
      "user@example.com" "k"%char /\
  JSON_stringify object_with_methods
  = JSON_stringify (survivor object_with_methods) /\
  has_member_without_JSON_form (survivor object_with_methods) = false /\
  survivor (survivor object_with_methods) = survivor object_with_methods.
Proof.
  apply (object_helpers_drop_members_silently (C := Ref.cryptojs)
           object_with_methods "user@example.com" "k"%char).
  reflexivity.
Defined.

(** The sample object, what is left of it, and how both are written. *)
Example sample_survivor :
  has_member_without_JSON_form object_with_methods = true /\
  survivor object_with_methods
  = JsObject [("a", JsNumber 1);
              ("l", JsArray [JsNull; JsString "x";
                             JsObject [("n", JsNumber 3)]])] /\
  JSON_stringify object_with_methods
  = Return (Some ("{" ++ QuoteJSONString "a" ++ ":1,"
                      ++ QuoteJSONString "l" ++ ":[null,"
                      ++ QuoteJSONString "x" ++ ",{"
                      ++ QuoteJSONString "n" ++ ":3}]}")).
Proof. repeat split. Qed.

(** X16.  What the object helpers throw.  Whatever [encryptObject] throws
    was thrown by [JSON.stringify] or is the codec's encryption error; on a
    value none of whose objects has a [toJSON] method it is the
    serializer's TypeError (exactly when the value has a BigInt or a
    circular reference in it) or the encryption error.  [decryptObject]
    throws the codec's decryption error or the parser's SyntaxError, and
    what it returns is what [JSON.parse] read from a non-empty decrypted
    text. *)
Theorem object_helpers_throw_only_their_errors {C : CryptoJS}
  {J : JSONParser} (obj : JsValue) (c p : string) (k : Salt) :
  (forall e,
      encryptObject obj p k = Throw e ->
      JSON_stringify obj = Throw e \/ e = EncryptionError) /\
  (calls_no_toJSON obj = true ->
   forall e,
     encryptObject obj p k = Throw e ->
     (e = TypeError /\ contains_bigint_or_cycle obj = true) \/
     (e = EncryptionError /\ contains_bigint_or_cycle obj = false)) /\
  (forall e,
      decryptObject c p = Throw e -> e = DecryptionError \/ e = SyntaxError) /\
  (forall v,
      decryptObject c p = Return v ->
      exists text,
        text <> EmptyString /\
        decryptData c p = Return text /\
        JSON_parse text = Some v).
Proof.
  split; [|split; [|split]].
  - intros e. rewrite encryptObject_unfold.
    destruct (JSON_stringify obj) as [json|e0]; [|intros [= <-]; now left].
    intros He. right. now apply encryptData_Throw in He.
  - intros N e. rewrite encryptObject_unfold.
    pose proof (JSON_stringify_throws obj N) as H.
    destruct (contains_bigint_or_cycle obj).
    + rewrite H. intros [= <-]. now left.
    + destruct H as [json ->]. intros He. right.
      split; [now apply encryptData_Throw in He|reflexivity].
  - intros e. rewrite decryptObject_unfold.
    destruct (decryptData c p) as [text|e0] eqn:D.
    + destruct (JSON_parse text); [discriminate|]. intros [= <-]. now right.
    + intros [= <-]. left. now apply decryptData_Throw in D.
  - intros v. rewrite decryptObject_unfold.
    destruct (decryptData c p) as [text|e0] eqn:D; [|discriminate].
    destruct (JSON_parse text) as [v'|] eqn:P; [|discriminate].
    intros [= <-]. exists text. split; [|now split].
    apply decryptData_Return in D. tauto.
Qed.

Lemma object_helpers_throw_only_their_errors_witness :
  exists text,
    text <> EmptyString /\
    decryptData (C := Ref.cryptojs) representative_ciphertext "user@example.com"
      = Return text /\
    JSON_parse (JSONParser := Ref.json) text = Some representative_object.
Proof.
  apply (proj2 (proj2 (proj2 (object_helpers_throw_only_their_errors
                                (C := Ref.cryptojs) (J := Ref.json) JsNull
                                representative_ciphertext "user@example.com"
                                "k"%char)))).
  reflexivity.
Defined.

(** ** A failing cipher and the form *)

(** X17.  When the cipher throws on the description, [handleSubmit] stores
    nothing, does not call [onSuccess], keeps the form and shows the codec's
    own message, ["Failed to encrypt data"], whatever the cipher threw. *)
Theorem submit_shows_the_codec_error {C : CryptoJS}
  (env : TaskForm.Environment) (user : option User) (e : string)
  (st : TaskForm.State) (db : Database) (err : JsError) :
  truthy_email user = Some e ->
  trim (TaskForm.title st) <> EmptyString ->
  AES_encrypt (Some (TaskForm.description st)) e (TaskForm.salt_for env 0)
    = Throw err ->
  TaskForm.handleSubmit env user st db
    = (TaskForm.failed env EncryptionError st, db, false) /\
  TaskForm.error (TaskForm.failed env EncryptionError st)
    = "Failed to encrypt data".
Proof.
  intros He Ht Ha. split; [|reflexivity].
  destruct (truthy_email_Some user e He) as [u ->].
  unfold TaskForm.handleSubmit. rewrite He.
  apply falsy_false in Ht. rewrite Ht.
  rewrite encryptData_unfold, Ha. reflexivity.
Qed.

Lemma submit_shows_the_codec_error_witness :
  TaskForm.handleSubmit (C := failing_cryptojs) failing_environment sample_user
    sample_form empty_database
    = (TaskForm.failed failing_environment EncryptionError sample_form,
       empty_database, false) /\
  TaskForm.error (TaskForm.failed failing_environment EncryptionError sample_form)
    = "Failed to encrypt data".
Proof.
  apply (submit_shows_the_codec_error (C := failing_cryptojs) failing_environment
           sample_user "user@example.com" sample_form empty_database
           (Thrown "out of entropy")).
  - reflexivity.
  - discriminate.
  - reflexivity.
Defined.

(** ** Every store the application can reach *)

Lemma update_eq_id_ids (auth_uid : option string) (store_now : string)
  (u : StatusUpdate) (id : string) (store : list Task.t) :
  map Task.id (update_eq_id auth_uid store_now u id store) = map Task.id store.
Proof.
  unfold update_eq_id. rewrite map_map. apply map_ext. intros row.
  now destruct (String.eqb (Task.id row) id && own_task auth_uid row).
Qed.

Lemma references_hold_same_ids (tasks tasks' : list Task.t)
  (items : list ChecklistItem.t) :
  map Task.id tasks' = map Task.id tasks ->
  references_hold {| db_tasks := tasks; db_items := items |} ->
  references_hold {| db_tasks := tasks'; db_items := items |}.
Proof.
  unfold references_hold. simpl. intros E H.
  eapply Forall_impl; [|exact H].
  intros it (t & Hin & Hid).
  assert (Hi : In (Task.id t) (map Task.id tasks')).
  { rewrite E. now apply in_map. }
  apply in_map_iff in Hi. destruct Hi as (t' & Ht' & Hin').
  exists t'. split; [assumption|congruence].
Qed.

Lemma update_completed_eq_id_references (auth_uid : option string)
  (now : string) (completed : bool) (itemId : string) (db : Database) :
  references_hold db ->
  references_hold (update_completed_eq_id auth_uid now completed itemId db).
Proof.
  unfold references_hold, update_completed_eq_id. simpl. intros H.
  apply Forall_map. eapply Forall_impl; [|exact H].
  intros it Hit.
  now destruct (String.eqb (ChecklistItem.id it) itemId
                && own_item auth_uid (db_tasks db) it).
Qed.

Lemma perform_keeps_invariants {C : CryptoJS} (a : Action) (db : Database) :
  Forall coupled (db_tasks db) /\ references_hold db ->
  Forall coupled (db_tasks (perform a db)) /\ references_hold (perform a db).
Proof.
  intros [Hc Hr].
  destruct a as [env user form|user displayed now store_now err
                |user itemId cur now err
                |auth_uid confirmed displayed err]; simpl.
  - now apply handleSubmit_keeps_invariants.
  - destruct db as [tasks items]. unfold toggleTaskStatus. simpl in *.
    destruct (truthy_email user); [|now split].
    destruct err; simpl; [now split|]. split.
    + now apply update_eq_id_coupled.
    + apply references_hold_same_ids with tasks; [apply update_eq_id_ids|assumption].
  - unfold toggleChecklistItem.
    destruct (truthy_email user); [|now split].
    destruct err; simpl; [now split|]. split; [assumption|].
    now apply update_completed_eq_id_references.
  - unfold deleteTask. destruct confirmed; [|now split].
    destruct err; [now split|]. simpl fst. split.
    + rewrite Forall_forall in *. intros t Ht.
      apply delete_eq_id_tasks in Ht. apply Hc. tauto.
    + now apply delete_eq_id_references.
Qed.

(** X18.  The application keeps the two invariants of the store.  From a
    store in which every task has a completion time exactly when its status
    is [completed], and every checklist row refers to a task that is in the
    store, any sequence of form submissions, status toggles, checklist
    toggles and deletions -- by any user, with any answers from the store
    and the cipher -- leads to a store of which the same is true. *)
Theorem reachable_stores_keep_invariants {C : CryptoJS}
  (actions : list Action) (db : Database) :
  Forall coupled (db_tasks db) ->
  references_hold db ->
  Forall coupled (db_tasks (perform_all actions db)) /\
  references_hold (perform_all actions db).
Proof.
  unfold perform_all. revert db.
  induction actions as [|a actions IH]; intros db Hc Hr; simpl; [now split|].
  destruct (perform_keeps_invariants a db (conj Hc Hr)) as [Hc' Hr'].
  now apply IH.
Qed.

Lemma reachable_stores_keep_invariants_witness :
  Forall coupled
    (db_tasks (perform_all (C := Ref.cryptojs)
                 [ Submit sample_environment sample_user sample_form;
                   Delete (Some "u1") true sample_displayed None ]
                 empty_database)) /\
  references_hold
    (perform_all (C := Ref.cryptojs)
       [ Submit sample_environment sample_user sample_form;
         Delete (Some "u1") true sample_displayed None ]
       empty_database).
Proof.
  apply (reachable_stores_keep_invariants (C := Ref.cryptojs)
           [ Submit sample_environment sample_user sample_form;
             Delete (Some "u1") true sample_displayed None ]
           empty_database).
  - constructor.
  - constructor.
Defined.

(** A submission, a status toggle, a checklist toggle and a deletion of
    another task, run on the reference libraries. *)
Example sample_session :
  let db := perform_all (C := Ref.cryptojs)
              [ Submit sample_environment sample_user sample_form;
                ToggleStatus sample_user
                  {| columns := sample_task "t9" "c"; description := "d";
                     checklist := [] |}
                  "2024-05-02T08:00:00.000Z" "2024-05-02T08:00:01Z" None;
                ToggleItem sample_user "1" false "2024-05-02T09:00:00.000Z" None;
                Delete (Some "u1") true sample_displayed None ]
              empty_database in
  map (fun t => (Task.id t, Task.status t, Task.completed_at t)) (db_tasks db)
  = [("t9", completed, Some "2024-05-02T08:00:00.000Z")] /\
  map (fun r => (ChecklistItem.id r, ChecklistItem.task_id r,
                 ChecklistItem.completed r, ChecklistItem.updated_at r))
      (db_items db)
  = [("0", "t9", false, "2024-05-01T10:00:00Z");
     ("1", "t9", true, "2024-05-02T09:00:00.000Z")].
Proof. split; reflexivity. Qed.
